(** * sitemap2pdf: a shallow embedding of [src/index.ts]

    The program resolves a sitemap into page URLs ([fetchSitemapUrls]),
    renders every page in a headless browser ([fetchPageHtml]), converts the
    main content to Markdown and writes it under [docs/], the file being
    named by [sanitizeUrlToFileName].  The orchestration is [main].

    JavaScript strings are modelled by [string]: one [ascii] stands for one
    UTF-16 code unit, as far as the program tells units apart.  An ASCII
    unit is stood for by itself; a lead surrogate (0xD800-0xDBFF) and a
    trail surrogate (0xDC00-0xDFFF) by their high byte, 216-219 and 220-223;
    every other unit by any other [ascii] from 128 on.  The sanitizer works
    unit by unit (regular expressions without the [u] flag, [substring],
    [slice], [endsWith]) and names ASCII units only; the array pattern of
    the loop in [main] goes through the string's iterator, which yields code
    points: a lead surrogate followed by a trail surrogate is one element.

    The network, the XML parser, the browser, the Markdown conversion and
    the file system are collaborators: an [environment] says what each of
    them answers, and a [world] records what the program did to them.
    Asynchronous calls are awaited one after the other, so a computation is
    a function from the world to an outcome and the world after it. *)

From Stdlib Require Import String Ascii List Bool Arith Lia DecimalString.
From stdpp Require Import base option gmap strings.
Import ListNotations.
Local Open Scope string_scope.

(** ** String primitives of the host language *)

Module Js.

(** [s.startsWith(p)], returning what follows the prefix. *)
Fixpoint strip_prefix (p s : string) : option string :=
  match p, s with
  | EmptyString, _ => Some s
  | String a p', String b s' =>
      if Ascii.eqb a b then strip_prefix p' s' else None
  | String _ _, EmptyString => None
  end.

(** [s.replace(/\//g, '_')] and the like: every unit mapped on its own. *)
Fixpoint map_units (f : ascii -> ascii) (s : string) : string :=
  match s with
  | EmptyString => EmptyString
  | String c r => String (f c) (map_units f r)
  end.

(** [s.replace(/[^...]/g, '')]: the units satisfying [keep] survive. *)
Fixpoint filter_units (keep : ascii -> bool) (s : string) : string :=
  match s with
  | EmptyString => EmptyString
  | String c r =>
      if keep c then String c (filter_units keep r) else filter_units keep r
  end.

(** [s.replace(c, d)] with a one-unit string pattern: only the first
    occurrence is replaced. *)
Fixpoint replace_first (c d : ascii) (s : string) : string :=
  match s with
  | EmptyString => EmptyString
  | String x r =>
      if Ascii.eqb x c then String d r else String x (replace_first c d r)
  end.

(** [s.substring(0, n)]. *)
Fixpoint take (n : nat) (s : string) : string :=
  match n, s with
  | O, _ => EmptyString
  | S _, EmptyString => EmptyString
  | S n', String c r => String c (take n' r)
  end.

(** The last unit of [s], if any; [s.endsWith(c)] compares against it. *)
Fixpoint last_unit (s : string) : option ascii :=
  match s with
  | EmptyString => None
  | String c EmptyString => Some c
  | String _ r => last_unit r
  end.

Definition endsWith (s : string) (c : ascii) : bool :=
  match last_unit s with
  | Some x => Ascii.eqb x c
  | None => false
  end.

(** [s.slice(0, -1)]. *)
Fixpoint drop_last (s : string) : string :=
  match s with
  | EmptyString => EmptyString
  | String _ EmptyString => EmptyString
  | String c r => String c (drop_last r)
  end.

(** The surrogate ranges, a unit of which is stood for by its high byte. *)
Definition lead_surrogate (c : ascii) : bool :=
  let n := nat_of_ascii c in ((216 <=? n) && (n <=? 219))%nat.

Definition trail_surrogate (c : ascii) : bool :=
  let n := nat_of_ascii c in ((220 <=? n) && (n <=? 223))%nat.

(** One step of [s[Symbol.iterator]()]: the first code point of [s], as
    the string of its units, and what follows it.  A lead surrogate with
    the trail surrogate after it is one code point; every other unit, a
    lone surrogate too, is one by itself. *)
Definition next_code_point (s : string) : option (string * string) :=
  match s with
  | EmptyString => None
  | String a EmptyString => Some (String a EmptyString, EmptyString)
  | String a (String b r) =>
      if lead_surrogate a && trail_surrogate b
      then Some (String a (String b EmptyString), r)
      else Some (String a EmptyString, String b r)
  end.

(** Truthiness of a string: [!s] holds exactly for the empty string. *)
Definition truthy_str (s : string) : bool :=
  match s with EmptyString => false | _ => true end.

(** [`${n}`] for a non-negative integer. *)
Definition show_nat (n : nat) : string :=
  NilEmpty.string_of_uint (Nat.to_uint n).

(** Does [s] end with the string [suffix]? *)
Definition has_suffix (suffix s : string) : bool :=
  let n := String.length s in
  let k := String.length suffix in
  (k <=? n)%nat && String.eqb (substring (n - k) k s) suffix.

End Js.

(** ** The filename sanitizer *)

Module Sanitizer.
Import Js.

(** [url.replace(/^https?:\/\//, '')] *)
Definition strip_scheme (url : string) : string :=
  match strip_prefix "http" url with
  | Some rest =>
      let after_s :=
        match rest with
        | String "s" rest' => strip_prefix "://" rest'
        | _ => None
        end in
      match after_s with
      | Some tail => tail
      | None =>
          match strip_prefix "://" rest with
          | Some tail => tail
          | None => url
          end
      end
  | None => url
  end.

Definition slash_to_underscore (c : ascii) : ascii :=
  if Ascii.eqb c "/" then "_"%char else c.

(** The class [[a-zA-Z0-9_.-]]. *)
Definition allowed (c : ascii) : bool :=
  let n := nat_of_ascii c in
  ((97 <=? n) && (n <=? 122))%nat
  || ((65 <=? n) && (n <=? 90))%nat
  || ((48 <=? n) && (n <=? 57))%nat
  || Ascii.eqb c "_" || Ascii.eqb c "." || Ascii.eqb c "-".

(** Lines 81-85: the chain of [replace] calls. *)
Definition clean (url : string) : string :=
  filter_units allowed
    (replace_first "." "_"
       (map_units slash_to_underscore (strip_scheme url))).

(** Lines 86-88. *)
Definition truncate (fileName : string) : string :=
  if (100 <? String.length fileName)%nat then take 100 fileName else fileName.

(** Lines 90-94. *)
Definition trim_tail (fileName : string) : string :=
  if (1 <? String.length fileName)%nat
     && (endsWith fileName "." || endsWith fileName "_")
  then drop_last fileName
  else fileName.

Definition sanitizeUrlToFileName (url : string) : string :=
  let fileName := trim_tail (truncate (clean url)) in
  if negb (truthy_str fileName) then "default_page_name"
  else fileName ++ ".md".

End Sanitizer.

(** ** Values of the parsed XML tree *)

Module Value.

Set Warnings "-register-all".

(** What [parseXml] may hand back: the tree of a document, whose leaves
    are strings, numbers, booleans or [null], whose repeated children are
    arrays and whose elements are objects. *)
Inductive jsval : Type :=
| JUndefined
| JNull
| JBool (b : bool)
| JNum (n : Z)
| JStr (s : string)
| JArr (items : list jsval)
| JObj (fields : list (string * jsval)).

Inductive exn : Type :=
| Error (message : string)
| TypeError (message : string).

Definition message (e : exn) : string :=
  match e with Error m => m | TypeError m => m end.

(** [!!v] *)
Definition truthy (v : jsval) : bool :=
  match v with
  | JUndefined | JNull => false
  | JBool b => b
  | JNum n => negb (n =? 0)%Z
  | JStr s => Js.truthy_str s
  | JArr _ | JObj _ => true
  end.

Definition nullish (v : jsval) : bool :=
  match v with JUndefined | JNull => true | _ => false end.

Fixpoint lookup_field (k : string) (fields : list (string * jsval)) : jsval :=
  match fields with
  | [] => JUndefined
  | (k', v) :: rest => if String.eqb k' k then v else lookup_field k rest
  end.

(** [v.k] for a [v] that is neither [null] nor [undefined].  The keys the
    program reads ([urlset], [url], [sitemapindex], [sitemap], [loc],
    [#text]) are own properties of objects only: on a string, number,
    boolean or array they are [undefined]. *)
Definition field (v : jsval) (k : string) : jsval :=
  match v with
  | JObj fields => lookup_field k fields
  | _ => JUndefined
  end.

Definition show_nullish (v : jsval) : string :=
  match v with JNull => "null" | _ => "undefined" end.

(** [v.k] in general: reading a property of [null] or [undefined] throws. *)
Definition get_prop (v : jsval) (k : string) : exn + jsval :=
  if nullish v
  then inl (TypeError ("Cannot read properties of " ++ show_nullish v
                        ++ " (reading '" ++ k ++ "')"))
  else inr (field v k).

(** [Array.isArray(v) ? v : [v]] *)
Definition to_array (v : jsval) : list jsval :=
  match v with JArr items => items | _ => [v] end.

(** [typeof v === 'string'], with the string. *)
Definition as_string (v : jsval) : option string :=
  match v with JStr s => Some s | _ => None end.

End Value.

(** ** The world the program acts on, and its effects *)

Module Effects.
Import Value.

Inductive stream : Type := Log | Warn | Err.

(** What a run leaves behind: the console lines, the URLs requested
    ([fetch] and [page.goto]) in order, the browsers launched and not yet
    closed, the directories created and the files written. *)
Record world : Type := mkWorld {
  console : list (stream * string);
  network : list string;
  browsers : nat;
  dirs : gset string;
  files : gmap string string
}.

Definition initial : world := mkWorld [] [] 0 ∅ ∅.

Inductive response : Type :=
| Response (ok : bool) (statusText : string) (body : string).

(** What the browser does with one page. *)
Inductive render : Type :=
| LaunchFails (e : exn)
| NewPageFails (e : exn)
| GotoFails (e : exn)
| ContentFails (e : exn)
| Rendered (html : string).

(** The collaborators, as the program sees them.  [inl] is a thrown
    exception or a rejected promise. *)
Record environment : Type := mkEnv {
  fetch : string -> exn + response;
  parseXml : string -> exn + jsval;
  chromium : string -> render;
  (** [toMarkdown(extract(html, { charThreshold: 100 }).root)] *)
  readability : string -> exn + string;
  mkdir : string -> option exn;
  writeTextFile : string -> string -> option exn
}.

Inductive outcome (A : Type) : Type :=
| Ret (a : A)
| Throw (e : exn)
| Exit (code : nat)
| Diverge.
Arguments Ret {A} a.
Arguments Throw {A} e.
Arguments Exit {A} code.
Arguments Diverge {A}.

Definition M (A : Type) : Type := world -> outcome A * world.

Definition ret {A} (a : A) : M A := fun w => (Ret a, w).

Definition bind {A B} (m : M A) (k : A -> M B) : M B :=
  fun w =>
    match m w with
    | (Ret a, w') => k a w'
    | (Throw e, w') => (Throw e, w')
    | (Exit c, w') => (Exit c, w')
    | (Diverge, w') => (Diverge, w')
    end.

Definition throw {A} (e : exn) : M A := fun w => (Throw e, w).
Definition exit {A} (code : nat) : M A := fun w => (Exit code, w).
Definition diverge {A} : M A := fun w => (Diverge, w).

Definition lift {A} (r : exn + A) : M A :=
  match r with inl e => throw e | inr a => ret a end.

(** [try { m } catch (error) { h error }] *)
Definition try_catch {A} (m : M A) (h : exn -> M A) : M A :=
  fun w =>
    match m w with
    | (Throw e, w') => h e w'
    | r => r
    end.

(** [try { m } finally { f }]: [f] runs after a result and after an
    exception, and whatever [f] itself ends with, other than a plain
    result, replaces the outcome of [m]. *)
Definition try_finally {A} (m : M A) (f : M unit) : M A :=
  fun w =>
    match m w with
    | (Ret a, w') =>
        match f w' with
        | (Ret _, w'') => (Ret a, w'')
        | (Throw e, w'') => (Throw e, w'')
        | (Exit c, w'') => (Exit c, w'')
        | (Diverge, w'') => (Diverge, w'')
        end
    | (Throw e, w') =>
        match f w' with
        | (Ret _, w'') => (Throw e, w'')
        | (Throw e', w'') => (Throw e', w'')
        | (Exit c, w'') => (Exit c, w'')
        | (Diverge, w'') => (Diverge, w'')
        end
    | r => r
    end.

Definition modify (f : world -> world) : M unit := fun w => (Ret tt, f w).

Definition say (s : stream) (line : string) : M unit :=
  modify (fun w => mkWorld (console w ++ [(s, line)]) (network w)
                           (browsers w) (dirs w) (files w)).

Definition request (url : string) : M unit :=
  modify (fun w => mkWorld (console w) (network w ++ [url])
                           (browsers w) (dirs w) (files w)).

Definition set_browsers (f : nat -> nat) : M unit :=
  modify (fun w => mkWorld (console w) (network w)
                           (f (browsers w)) (dirs w) (files w)).

Definition add_dir (d : string) : M unit :=
  modify (fun w => mkWorld (console w) (network w)
                           (browsers w) ({[ d ]} ∪ dirs w) (files w)).

Definition put_file (path text : string) : M unit :=
  modify (fun w => mkWorld (console w) (network w)
                           (browsers w) (dirs w) (<[ path := text ]> (files w))).

(** [for (const x of xs) { body x }] *)
Fixpoint for_of {A} (xs : list A) (body : A -> M unit) : M unit :=
  match xs with
  | [] => ret tt
  | x :: rest => bind (body x) (fun _ => for_of rest body)
  end.

(** [xs.map(f)] with a callback that may throw. *)
Fixpoint map_m {A B} (f : A -> M B) (xs : list A) : M (list B) :=
  match xs with
  | [] => ret []
  | x :: rest =>
      bind (f x) (fun y => bind (map_m f rest) (fun ys => ret (y :: ys)))
  end.

End Effects.

Declare Scope js_scope.
Delimit Scope js_scope with js.
Notation "x <- m ;; k" := (Effects.bind m (fun x => k))
  (at level 100, m at next level, right associativity) : js_scope.
Notation "m ;; k" := (Effects.bind m (fun _ => k))
  (at level 100, right associativity) : js_scope.

(** ** The sitemap resolver *)

Module Resolver.
Import Value Effects.
Local Open Scope js_scope.

Section WithEnvironment.
Variable env : environment.

(** [await fetch(sitemapUrl)] *)
Definition js_fetch (url : string) : M response :=
  request url ;; lift (fetch env url).

(** The two tests on an entry, lines 28-34 and again lines 46-51:
    [e.loc && typeof e.loc === 'string'] gives [e.loc], otherwise
    [e.loc && typeof e.loc['#text'] === 'string'] gives [e.loc['#text']],
    otherwise nothing. *)
Definition entry_loc (e : jsval) : M (option string) :=
  loc <- lift (get_prop e "loc") ;;
  match (if truthy loc then as_string loc else None) with
  | Some s => ret (Some s)
  | None =>
      if truthy loc then
        text <- lift (get_prop loc "#text") ;;
        ret (as_string text)
      else ret None
  end.

(** [!urlset || !urlset.url] *)
Definition no_urlset (urlset : jsval) : M bool :=
  if negb (truthy urlset) then ret true
  else url <- lift (get_prop urlset "url") ;; ret (negb (truthy url)).

(** [sitemapindex && sitemapindex.sitemap] *)
Definition has_sitemaps (sitemapindex : jsval) : M bool :=
  if truthy sitemapindex
  then sitemap <- lift (get_prop sitemapindex "sitemap") ;; ret (truthy sitemap)
  else ret false.

(** Lines 26-36: the loop over the entries of a sitemap index, [urls]
    being the accumulator and [resolve] the recursive call. *)
Fixpoint collect (resolve : string -> M (list string))
         (sitemaps : list jsval) (urls : list string) : M (list string) :=
  match sitemaps with
  | [] => ret urls
  | sm :: rest =>
      loc <- entry_loc sm ;;
      match loc with
      | Some child =>
          nestedUrls <- resolve child ;;
          collect resolve rest (urls ++ nestedUrls)
      | None => collect resolve rest urls
      end
  end.

(** [.filter(u => u !== null)] *)
Definition drop_nulls (xs : list (option string)) : list string :=
  omap (fun x => x) xs.

(** The body of the [try] block, lines 8-52. *)
Definition resolve_body (resolve : string -> M (list string))
           (sitemapUrl : string) : M (list string) :=
  say Log ("Fetching sitemap: " ++ sitemapUrl) ;;
  r <- js_fetch sitemapUrl ;;
  let '(Response ok statusText xmlString) := r in
  if negb ok
  then throw (Error ("Failed to fetch sitemap: " ++ statusText))
  else
    doc <- lift (parseXml env xmlString) ;;
    urlset <- lift (get_prop doc "urlset") ;;
    missing <- no_urlset urlset ;;
    if missing then
      sitemapindex <- lift (get_prop doc "sitemapindex") ;;
      indexed <- has_sitemaps sitemapindex ;;
      if indexed then
        sitemap <- lift (get_prop sitemapindex "sitemap") ;;
        collect resolve (to_array sitemap) []
      else
        throw (Error "Invalid sitemap format. No <urlset> or <sitemapindex> found.")
    else
      url <- lift (get_prop urlset "url") ;;
      locs <- map_m entry_loc (to_array url) ;;
      ret (drop_nulls locs).

(** Lines 53-58. *)
Definition resolve_handler (error : exn) : M (list string) :=
  say Err ("Error fetching or parsing sitemap: " ++ message error) ;;
  ret [].

(** [fetchSitemapUrls]: the recursion follows the sitemap graph, which
    may be cyclic, so it is bounded by [fuel]; running out of fuel is
    [Diverge]. *)
Fixpoint fetchSitemapUrls (fuel : nat) (sitemapUrl : string) : M (list string) :=
  match fuel with
  | O => diverge
  | S fuel' =>
      try_catch (resolve_body (fetchSitemapUrls fuel') sitemapUrl)
                resolve_handler
  end.

End WithEnvironment.
End Resolver.

(** ** The page pipeline *)

Module Pipeline.
Import Value Effects.
Local Open Scope js_scope.

Section WithEnvironment.
Variable env : environment.

(** [await puppeteer.launch(...)] *)
Definition launch (pageUrl : string) : M unit :=
  match chromium env pageUrl with
  | LaunchFails e => throw e
  | _ => set_browsers S
  end.

(** [await browser.newPage()] *)
Definition newPage (pageUrl : string) : M unit :=
  match chromium env pageUrl with
  | NewPageFails e => throw e
  | _ => ret tt
  end.

(** [await page.goto(pageUrl, { waitUntil: 'networkidle2', timeout: 60000 })];
    a timeout is one of the ways [goto] rejects. *)
Definition goto (pageUrl : string) : M unit :=
  request pageUrl ;;
  match chromium env pageUrl with
  | GotoFails e => throw e
  | _ => ret tt
  end.

(** [await page.content()] *)
Definition content (pageUrl : string) : M string :=
  match chromium env pageUrl with
  | Rendered html => ret html
  | ContentFails e => throw e
  | LaunchFails e | NewPageFails e | GotoFails e => throw e
  end.

(** [await browser.close()] *)
Definition close : M unit := set_browsers Nat.pred.

(** [fetchPageHtml]; [None] is [null]. *)
Definition fetchPageHtml (pageUrl : string) : M (option string) :=
  launch pageUrl ;;
  newPage pageUrl ;;
  try_finally
    (try_catch
       (goto pageUrl ;;
        html <- content pageUrl ;;
        ret (Some html))
       (fun error =>
          say Err ("Error fetching page " ++ pageUrl ++ ": " ++ message error) ;;
          ret None))
    close.

End WithEnvironment.
End Pipeline.

(** ** The orchestrator *)

Module Orchestrator.
Import Value Effects.
Local Open Scope js_scope.

Definition nl : string := String (ascii_of_nat 10) EmptyString.

Definition usage : string :=
  "Usage: deno run --allow-net --allow-read --allow-write --allow-env --allow-run --unstable src/index.ts <sitemap_url>".

(** [const [index, pageUrl] = entry] for a string [entry]: the pattern
    takes the first two elements the string's iterator yields, which are
    code points, and a variable with no element left is [undefined]
    ([None]). *)
Definition destructure (entry : string) : option string * option string :=
  match Js.next_code_point entry with
  | None => (None, None)
  | Some (index, rest) =>
      (Some index,
       match Js.next_code_point rest with
       | Some (pageUrl, _) => Some pageUrl
       | None => None
       end)
  end.

(** [`${v}`] for a string or [undefined]. *)
Definition show (v : option string) : string :=
  match v with Some s => s | None => "undefined" end.

(** [`${index + 1}`]: a string is concatenated with ["1"], and
    [undefined + 1] is [NaN]. *)
Definition plus_one (index : option string) : string :=
  match index with Some s => s ++ "1" | None => "NaN" end.

(** [join('docs', baseFileName)]; the sanitized name holds no separator. *)
Definition join (dir name : string) : string := dir ++ "/" ++ name.

Section WithEnvironment.
Variable env : environment.

(** [await Deno.mkdir(dir, { recursive: true })] *)
Definition deno_mkdir (dir : string) : M unit :=
  match mkdir env dir with
  | Some e => throw e
  | None => add_dir dir
  end.

(** [await Deno.writeTextFile(path, text)] *)
Definition deno_writeTextFile (path text : string) : M unit :=
  match writeTextFile env path text with
  | Some e => throw e
  | None => put_file path text
  end.

(** The body of the loop, lines 125-141, for one element of [urls];
    [total] is [urls.length]. *)
Definition process (total : nat) (entry : string) : M unit :=
  let '(index, pageUrl) := destructure entry in
  say Log (nl ++ "Processing URL: " ++ show pageUrl ++ " ()"
              ++ plus_one index ++ "/" ++ Js.show_nat total ++ ")") ;;
  match pageUrl with
  | None =>
      (* sanitizeUrlToFileName(undefined): [url.replace] throws *)
      throw (TypeError "Cannot read properties of undefined (reading 'replace')")
  | Some pageUrl =>
      let baseFileName := Sanitizer.sanitizeUrlToFileName pageUrl in
      html <- Pipeline.fetchPageHtml env pageUrl ;;
      match html with
      | Some (String c r) =>
          markdown <- lift (readability env (String c r)) ;;
          let path := join "docs" baseFileName in
          say Log ("Writing to file: " ++ path) ;;
          deno_writeTextFile path markdown
      | _ =>
          (* [!html]: [null] or the empty string *)
          say Warn ("Skipping " ++ pageUrl ++ " due to fetch error.")
      end
  end.

(** Lines 121-143: what [main] does with a non-empty [urls]. *)
Definition crawl (urls : list string) : M unit :=
  say Log ("Found " ++ Js.show_nat (length urls) ++ " URLs in sitemap.") ;;
  deno_mkdir "docs" ;;
  for_of urls (process (length urls)) ;;
  say Log (nl ++ "All processing finished.").

Definition main (fuel : nat) (args : list string) : M unit :=
  (if (length args =? 0)%nat
   then
     say Err "Please provide a sitemap.xml URL as an argument." ;;
     say Log usage ;;
     exit 1
   else ret tt) ;;
  let sitemapUrl := hd "" args in
  say Log ("Sitemap URL: " ++ sitemapUrl) ;;
  urls <- Resolver.fetchSitemapUrls env fuel sitemapUrl ;;
  if (length urls =? 0)%nat
  then say Log "No URLs found in the sitemap or failed to fetch/parse sitemap."
  else crawl urls.

End WithEnvironment.

(** The status the process ends with: [0] after [main] returns, the code
    passed to [Deno.exit], and [1] when the promise of [main] rejects. *)
Definition exit_status {A} (o : outcome A) : option nat :=
  match o with
  | Ret _ => Some 0
  | Exit code => Some code
  | Throw _ => Some 1
  | Diverge => None
  end.

End Orchestrator.

(** ** A small site, used to run the program *)

Module Site.
Import Value Effects.

Definition entry (loc : string) : jsval := JObj [("loc", JStr loc)].

Definition index_doc : jsval :=
  JObj [("sitemapindex",
         JObj [("sitemap", JArr [entry "https://example.com/pages.xml";
                                 entry "https://example.com/gone.xml"])])].

Definition pages_doc : jsval :=
  JObj [("urlset",
         JObj [("url", JArr [entry "https://example.com/a";
                             entry "https://example.com/b";
                             entry "https://example.com/c"])])].

(** [<urlset xmlns="..."></urlset>]: the root and its attribute, no entry. *)
Definition empty_doc : jsval :=
  JObj [("urlset",
         JObj [("@xmlns", JStr "http://www.sitemaps.org/schemas/sitemap/0.9")])].

Definition starts_with (p s : string) : bool :=
  match Js.strip_prefix p s with Some _ => true | None => false end.

(** The index lists a sitemap of three pages and one that answers 404;
    the browser renders what is an absolute URL and refuses the rest. *)
Definition env : environment := {|
  fetch url :=
    if String.eqb url "https://example.com/sitemap.xml" then inr (Response true "OK" "index")
    else if String.eqb url "https://example.com/pages.xml" then inr (Response true "OK" "pages")
    else if String.eqb url "https://example.com/empty.xml" then inr (Response true "OK" "empty")
    else inr (Response false "Not Found" "");
  parseXml text :=
    if String.eqb text "index" then inr index_doc
    else if String.eqb text "pages" then inr pages_doc
    else if String.eqb text "empty" then inr empty_doc
    else inl (Error "Unexpected end of input");
  chromium url :=
    if starts_with "http" url then Rendered ("<html>" ++ url ++ "</html>")
    else GotoFails (Error ("Cannot navigate to invalid URL " ++ url));
  readability html := inr html;
  mkdir _ := None;
  writeTextFile _ _ := None
|}.

(** The same site seen through a browser that launches and then fails to
    open a page. *)
Definition crashing : environment := {|
  fetch := fetch env;
  parseXml := parseXml env;
  chromium _ := NewPageFails (Error "Protocol error (Target.createTarget): Target closed");
  readability := readability env;
  mkdir := mkdir env;
  writeTextFile := writeTextFile env
|}.

(** The same site seen through a browser that renders whatever it is
    asked for. *)
Definition lenient : environment := {|
  fetch := fetch env;
  parseXml := parseXml env;
  chromium url := Rendered ("<html>" ++ url ++ "</html>");
  readability := readability env;
  mkdir := mkdir env;
  writeTextFile := writeTextFile env
|}.

End Site.

(** ** Further sites *)

Module Cases.
Import Value Effects.

Fixpoint document (url : string) (docs : list (string * jsval)) : option jsval :=
  match docs with
  | [] => None
  | (u, doc) :: rest => if String.eqb u url then Some doc else document url rest
  end.

(** A site that serves the documents [docs], each under its URL (the text
    of a document being its URL, which the parser maps to the tree), and
    answers 404 elsewhere; the other collaborators are parameters. *)
Definition serving (docs : list (string * jsval)) (browser : string -> render)
           (convert : string -> exn + string)
           (mkdir_error write_error : option exn) : environment := {|
  fetch url :=
    match document url docs with
    | Some _ => inr (Response true "OK" url)
    | None => inr (Response false "Not Found" "")
    end;
  parseXml text :=
    match document text docs with
    | Some doc => inr doc
    | None => inl (Error "Unexpected end of input")
    end;
  chromium := browser;
  readability := convert;
  mkdir _ := mkdir_error;
  writeTextFile _ _ := write_error
|}.

Definition renders (url : string) : render := Rendered ("<html>" ++ url ++ "</html>").

Definition sitemapindex (entries : list jsval) : jsval :=
  JObj [("sitemapindex", JObj [("sitemap", JArr entries)])].

Definition urlset (entries : list jsval) : jsval :=
  JObj [("urlset", JObj [("url", JArr entries)])].


(** An index with an entry that has no [loc] between two that have one, the
    second in the object form. *)
Definition gappy : environment :=
  serving [("https://example.com/index.xml",
            sitemapindex [Site.entry "https://example.com/one.xml";
                          JObj [("lastmod", JStr "2024-01-01")];
                          JObj [("loc", JObj [("#text", JStr "https://example.com/two.xml")])]]);
           ("https://example.com/one.xml", urlset [Site.entry "https://example.com/1"]);
           ("https://example.com/two.xml", urlset [Site.entry "https://example.com/2"])]
          renders inr None None.

(** An index with one entry, not in an array, whose location is in the
    object form; the sitemap it points to lists one page in the string form
    and one in the object form. *)
Definition mixed : environment :=
  serving [("https://example.com/index.xml",
            JObj [("sitemapindex",
                   JObj [("sitemap",
                          JObj [("loc", JObj [("#text", JStr "https://example.com/two.xml")])])])]);
           ("https://example.com/two.xml",
            urlset [Site.entry "https://example.com/1";
                    JObj [("loc", JObj [("#text", JStr "https://example.com/2")]);
                          ("lastmod", JStr "2024-01-01")]])]
          renders inr None None.

(** A urlset with a [null] entry between two ordinary ones. *)
Definition holed : environment :=
  serving [("https://example.com/pages.xml",
            urlset [Site.entry "https://example.com/a"; JNull;
                    Site.entry "https://example.com/b"])]
          renders inr None None.

(** Nothing is served; the browser renders whatever it is asked for. *)
Definition rendering : environment := serving [] renders inr None None.

(** A site where [docs] cannot be made. *)
Definition readonly : environment :=
  serving [] renders inr (Some (Error "Permission denied (os error 13)")) None.

(** A browser that renders, and a disk that is full. *)
Definition full_disk : environment :=
  serving [] renders inr None (Some (Error "No space left on device (os error 28)")).

(** A browser that cannot be launched. *)
Definition no_browser : environment :=
  serving [] (fun _ => LaunchFails (Error "Could not find Chrome")) inr None None.

(** A browser that renders the empty document. *)
Definition blank : environment :=
  serving [] (fun _ => Rendered "") inr None None.

End Cases.

(** * Notions the properties are stated with *)

Import Value Effects.

(** ** Outcomes *)

(** [m] never ends the process. *)
Definition no_exit {A} (m : M A) : Prop :=
  forall w, match fst (m w) with Exit _ => False | _ => True end.

(** [m] never lets an exception escape. *)
Definition no_throw {A} (m : M A) : Prop :=
  forall w, match fst (m w) with Throw _ => False | _ => True end.

(** [m'] does what [m] does wherever [m] does not run out of fuel. *)
Definition refines {A} (m m' : M A) : Prop :=
  forall w r w', m w = (r, w') -> r <> Diverge -> m' w = (r, w').

(** ** Worlds and documents *)

(** The world after [lines] were printed and [urls] requested. *)
Definition after (w : world) (lines : list (stream * string))
           (urls : list string) : world :=
  mkWorld (console w ++ lines) (network w ++ urls)
          (browsers w) (dirs w) (files w).

(** The two recognised shapes of a document. *)
Definition is_urlset (doc : jsval) : bool :=
  truthy (field doc "urlset") && truthy (field (field doc "urlset") "url").

Definition is_sitemapindex (doc : jsval) : bool :=
  truthy (field doc "sitemapindex")
  && truthy (field (field doc "sitemapindex") "sitemap").

(** The entries a node holds under one name, as the parsed tree gives
    them: an array when the element is repeated, and the element itself,
    which is no array, when it occurs once. *)
Inductive lists_entries : jsval -> list jsval -> Prop :=
| repeated items : lists_entries (JArr items) items
| single fields : lists_entries (JObj fields) [JObj fields]
| single_text text :
    Js.truthy_str text = true -> lists_entries (JStr text) [JStr text].

(** The location an entry carries: a non-empty bare string, or an object
    with the text under the key [#text]. *)
Definition location (e : jsval) : option string :=
  match field e "loc" with
  | JStr s => if Js.truthy_str s then Some s else None
  | JObj fields => as_string (lookup_field "#text" fields)
  | _ => None
  end.

(** The ways one node of the sitemap graph fails, with the message of the
    error: the request is rejected, the status is not a success, the text is
    not XML, or the document has neither shape. *)
Inductive node_failure (env : environment) (url : string) : string -> Prop :=
| fetch_rejected e :
    fetch env url = inl e ->
    node_failure env url (message e)
| http_failure statusText body :
    fetch env url = inr (Response false statusText body) ->
    node_failure env url ("Failed to fetch sitemap: " ++ statusText)
| parse_failure statusText body e :
    fetch env url = inr (Response true statusText body) ->
    parseXml env body = inl e ->
    node_failure env url (message e)
| unrecognized statusText body doc :
    fetch env url = inr (Response true statusText body) ->
    parseXml env body = inr doc ->
    nullish doc = false ->
    is_urlset doc = false ->
    is_sitemapindex doc = false ->
    node_failure env url "Invalid sitemap format. No <urlset> or <sitemapindex> found.".

(** The world with one more browser running. *)
Definition with_browser (w : world) : world :=
  mkWorld (console w) (network w) (S (browsers w)) (dirs w) (files w).

(** The world when the loop starts: the count was printed and [docs]
    made. *)
Definition started (w : world) (total : nat) : world :=
  mkWorld (console w ++ [(Log, "Found " ++ Js.show_nat total ++ " URLs in sitemap.")])
          (network w) (browsers w) ({[ "docs" ]} ∪ dirs w) (files w).

(** The world after the page [pageUrl], bound by the loop together with
    [index], failed to render with [e]. *)
Definition skipped (total : nat) (index : option string) (pageUrl : string)
           (e : exn) (w : world) : world :=
  after w
    [(Log, Orchestrator.nl ++ "Processing URL: " ++ pageUrl ++ " ()"
             ++ Orchestrator.plus_one index ++ "/" ++ Js.show_nat total ++ ")");
     (Err, "Error fetching page " ++ pageUrl ++ ": " ++ message e);
     (Warn, "Skipping " ++ pageUrl ++ " due to fetch error.")]
    [pageUrl].

(** A document whose [urlset] root is there and holds no [url] entry; a
    document has one root, so there is no [sitemapindex] beside it. *)
Definition empty_urlset (doc : jsval) : Prop :=
  nullish doc = false
  /\ field doc "urlset" <> JUndefined
  /\ truthy (field (field doc "urlset") "url") = false
  /\ field doc "sitemapindex" = JUndefined.

(** [m] leaves the world as it was but for the lines it printed and the
    URLs it requested. *)
Definition appends {A} (m : M A) : Prop :=
  forall w, exists lines urls, snd (m w) = after w lines urls.

(** The line a pass of the loop starts with. *)
Definition processing (total : nat) (index : option string) (pageUrl : option string)
  : stream * string :=
  (Log, Orchestrator.nl ++ "Processing URL: " ++ Orchestrator.show pageUrl ++ " ()"
          ++ Orchestrator.plus_one index ++ "/" ++ Js.show_nat total ++ ")").

(** The world after the pass for [pageUrl] wrote [markdown]. *)
Definition written (total : nat) (index : option string) (pageUrl markdown : string)
           (w : world) : world :=
  let path := Orchestrator.join "docs" (Sanitizer.sanitizeUrlToFileName pageUrl) in
  mkWorld (console w ++ [processing total index (Some pageUrl);
                         (Log, "Writing to file: " ++ path)])
          (network w ++ [pageUrl]) (browsers w) (dirs w)
          (<[ path := markdown ]> (files w)).

(** The second and the fourth rule of the sanitizer, which work unit by
    unit: every slash becomes an underscore, then the units outside
    [[a-zA-Z0-9_.-]] are deleted. *)
Definition tidy (s : string) : string :=
  Js.filter_units Sanitizer.allowed
    (Js.map_units Sanitizer.slash_to_underscore s).

(** Every unit of [s] satisfies [p]. *)
Fixpoint all_units (p : ascii -> bool) (s : string) : bool :=
  match s with
  | EmptyString => true
  | String c r => p c && all_units p r
  end.

(** * Properties *)

(** ** The filename sanitizer *)

Section SanitizerFacts.
Import Js Sanitizer.

Lemma truncate_truthy s : truthy_str (truncate s) = truthy_str s.
Proof.
  unfold truncate. destruct (100 <? String.length s)%nat; [|reflexivity].
  destruct s; reflexivity.
Qed.

Lemma trim_tail_truthy s : truthy_str (trim_tail s) = truthy_str s.
Proof.
  unfold trim_tail.
  destruct s as [|a [|b r]]; try reflexivity.
  destruct (_ && _); reflexivity.
Qed.

Lemma append_truthy s t : truthy_str s = true -> truthy_str (s ++ t) = true.
Proof. destruct s; simpl; congruence. Qed.

(** The name is never empty. *)
Lemma sanitize_nonempty url : truthy_str (sanitizeUrlToFileName url) = true.
Proof.
  unfold sanitizeUrlToFileName.
  destruct (truthy_str (trim_tail (truncate (clean url)))) eqn:E; simpl.
  - now apply append_truthy.
  - reflexivity.
Qed.

(** Whenever a unit of the URL survives the cleaning, the extension is
    appended. *)
Lemma sanitize_extension url :
  truthy_str (clean url) = true ->
  sanitizeUrlToFileName url = trim_tail (truncate (clean url)) ++ ".md".
Proof.
  intros H. unfold sanitizeUrlToFileName.
  now rewrite trim_tail_truthy, truncate_truthy, H.
Qed.

(** When nothing survives, the default name is returned as it is. *)
Lemma sanitize_default url :
  clean url = "" -> sanitizeUrlToFileName url = "default_page_name".
Proof. intros H. unfold sanitizeUrlToFileName. now rewrite H. Qed.

Lemma replace_first_app a b (c d : ascii) :
  filter_units (Ascii.eqb c) a = "" ->
  replace_first c d (a ++ String c b) = a ++ String d b.
Proof.
  induction a as [|x a IH]; simpl; intros H.
  - now rewrite Ascii.eqb_refl.
  - rewrite (Ascii.eqb_sym x c). destruct (Ascii.eqb c x); [discriminate|].
    now rewrite IH.
Qed.

Lemma map_units_app f a b : map_units f (a ++ b) = map_units f a ++ map_units f b.
Proof. induction a as [|x a IH]; simpl; [reflexivity|]. now rewrite IH. Qed.

Lemma filter_units_app p a b :
  filter_units p (a ++ b) = filter_units p a ++ filter_units p b.
Proof.
  induction a as [|x a IH]; simpl; [reflexivity|].
  destruct (p x); simpl; now rewrite IH.
Qed.

Lemma slash_to_underscore_dot c :
  Ascii.eqb "." (slash_to_underscore c) = Ascii.eqb "." c.
Proof.
  unfold slash_to_underscore.
  destruct (Ascii.eqb_spec c "/") as [->|_]; reflexivity.
Qed.

Lemma map_slash_dots a :
  filter_units (Ascii.eqb ".") (map_units slash_to_underscore a)
  = map_units slash_to_underscore (filter_units (Ascii.eqb ".") a).
Proof.
  induction a as [|x a IH]; [reflexivity|].
  cbn [map_units filter_units]. rewrite slash_to_underscore_dot.
  destruct (Ascii.eqb "." x); cbn [map_units]; now rewrite IH.
Qed.

(** The units the fourth rule deletes are not dots, and the second rule
    makes none: the dots of a string are those of what the two rules leave
    of it. *)
Lemma tidy_keeps_dots b :
  filter_units (Ascii.eqb ".") (tidy b) = filter_units (Ascii.eqb ".") b.
Proof.
  unfold tidy. induction b as [|x b IH]; [reflexivity|].
  cbn [map_units filter_units].
  destruct (Ascii.eqb_spec "." x) as [<-|Hx].
  - change (allowed (slash_to_underscore ".")) with true.
    cbn [filter_units]. change (slash_to_underscore ".") with "."%char.
    rewrite Ascii.eqb_refl. now rewrite IH.
  - destruct (allowed (slash_to_underscore x)); [|exact IH].
    cbn [filter_units]. rewrite slash_to_underscore_dot.
    destruct (Ascii.eqb_spec "." x); [contradiction|exact IH].
Qed.

(** The replace chain of lines 81-85 on a URL whose rest after the scheme
    is [a], a dot and [b], no dot in [a]. *)
Lemma clean_first_dot url a b :
  strip_scheme url = a ++ String "." b ->
  filter_units (Ascii.eqb ".") a = "" ->
  clean url = tidy a ++ String "_" (tidy b).
Proof.
  intros Hs Ha. unfold clean, tidy. rewrite Hs, map_units_app.
  change (map_units slash_to_underscore (String "." b))
    with (String "."%char (map_units slash_to_underscore b)).
  rewrite replace_first_app by now rewrite map_slash_dots, Ha.
  now rewrite filter_units_app.
Qed.

(** The scheme does not matter, a trailing separator is dropped once, and
    only the first dot is touched. *)
Example sanitize_scheme_insensitive :
  sanitizeUrlToFileName "https://a.b/c" = sanitizeUrlToFileName "http://a.b/c".
Proof. reflexivity. Qed.

Example sanitize_trailing_slash :
  sanitizeUrlToFileName "https://example.com/docs/" = "example_com_docs.md".
Proof. reflexivity. Qed.

Example sanitize_later_dots :
  sanitizeUrlToFileName "https://www.example.com/a.html?x=1"
  = "www_example.com_a.htmlx1.md".
Proof. reflexivity. Qed.

End SanitizerFacts.

(** C2, at the inputs the code gets wrong: for the empty string, for a URL
    that is only a scheme and for a URL whose units are all stripped, the
    sanitizer returns the default base name with no [.md] after it. *)
Theorem sanitize_default_lacks_extension :
  Sanitizer.sanitizeUrlToFileName "" = "default_page_name"
  /\ Sanitizer.sanitizeUrlToFileName "https://" = "default_page_name"
  /\ Sanitizer.sanitizeUrlToFileName "?!" = "default_page_name"
  /\ Js.has_suffix ".md" (Sanitizer.sanitizeUrlToFileName "") = false.
Proof. repeat split; reflexivity. Qed.

(** C3, as the claim states it, fails: the sanitized name of the example
    URL is not [examplecom_docs_page-one.md]. *)
Lemma sanitize_example_keeps_separator :
  Sanitizer.sanitizeUrlToFileName "https://example.com/docs/page-one"
  <> "examplecom_docs_page-one.md".
Proof. discriminate. Qed.

(** C3, amended: the third rule replaces the first occurrence of [.] by
    [_] and no other: when what follows the scheme is [a], a dot and [b],
    with no dot in [a], the replace chain gives what the other rules leave
    of [a], an underscore, and what they leave of [b], every dot of [b]
    still there; so the example URL is named [example_com_docs_page-one.md],
    and a URL with more dots keeps the later ones. *)
Theorem first_dot_becomes_underscore (url a b : string) :
  Sanitizer.strip_scheme url = a ++ String "." b ->
  Js.filter_units (Ascii.eqb ".") a = "" ->
  Sanitizer.clean url = tidy a ++ String "_" (tidy b)
  /\ Js.filter_units (Ascii.eqb ".") (tidy b) = Js.filter_units (Ascii.eqb ".") b
  /\ Sanitizer.sanitizeUrlToFileName "https://example.com/docs/page-one"
     = "example_com_docs_page-one.md"
  /\ Sanitizer.sanitizeUrlToFileName "https://www.example.co.uk/a.html"
     = "www_example.co.uk_a.html.md".
Proof.
  intros Hs Ha. split; [now apply clean_first_dot|].
  split; [apply tidy_keeps_dots|]. split; reflexivity.
Qed.

Lemma first_dot_becomes_underscore_witness :
  Sanitizer.clean "https://www.example.co.uk/a.html"
  = tidy "www" ++ String "_" (tidy "example.co.uk/a.html")
  /\ Js.filter_units (Ascii.eqb ".") (tidy "example.co.uk/a.html")
     = Js.filter_units (Ascii.eqb ".") "example.co.uk/a.html"
  /\ Sanitizer.sanitizeUrlToFileName "https://example.com/docs/page-one"
     = "example_com_docs_page-one.md"
  /\ Sanitizer.sanitizeUrlToFileName "https://www.example.co.uk/a.html"
     = "www_example.co.uk_a.html.md".
Proof.
  exact (first_dot_becomes_underscore "https://www.example.co.uk/a.html"
           "www" "example.co.uk/a.html" eq_refl eq_refl).
Defined.

(** ** Outcomes of computations *)

Section OutcomeFacts.

Lemma no_exit_ret {A} (a : A) : no_exit (ret a).
Proof. intros w; exact I. Qed.

Lemma no_exit_throw {A} e : no_exit (@throw A e).
Proof. intros w; exact I. Qed.

Lemma no_exit_diverge {A} : no_exit (@diverge A).
Proof. intros w; exact I. Qed.

Lemma no_exit_lift {A} (r : exn + A) : no_exit (lift r).
Proof. destruct r; intros w; exact I. Qed.

Lemma no_exit_modify f : no_exit (modify f).
Proof. intros w; exact I. Qed.

Lemma no_exit_bind {A B} (m : M A) (k : A -> M B) :
  no_exit m -> (forall a, no_exit (k a)) -> no_exit (bind m k).
Proof.
  intros Hm Hk w. unfold bind. specialize (Hm w).
  destruct (m w) as [[a|e|c|] w']; simpl in *; auto.
  apply Hk.
Qed.

Lemma no_exit_try_catch {A} (m : M A) h :
  no_exit m -> (forall e, no_exit (h e)) -> no_exit (try_catch m h).
Proof.
  intros Hm Hh w. unfold try_catch. specialize (Hm w).
  destruct (m w) as [[a|e|c|] w']; simpl in *; auto.
  apply Hh.
Qed.

Lemma no_exit_map_m {A B} (f : A -> M B) xs :
  (forall x, no_exit (f x)) -> no_exit (map_m f xs).
Proof.
  intros Hf. induction xs as [|x xs IH]; simpl.
  - apply no_exit_ret.
  - apply no_exit_bind; [apply Hf|]. intros y.
    apply no_exit_bind; [apply IH|]. intros ys. apply no_exit_ret.
Qed.

Lemma no_throw_ret {A} (a : A) : no_throw (ret a).
Proof. intros w; exact I. Qed.

Lemma no_throw_modify f : no_throw (modify f).
Proof. intros w; exact I. Qed.

Lemma no_throw_bind {A B} (m : M A) (k : A -> M B) :
  no_throw m -> (forall a, no_throw (k a)) -> no_throw (bind m k).
Proof.
  intros Hm Hk w. unfold bind. specialize (Hm w).
  destruct (m w) as [[a|e|c|] w']; simpl in *; auto.
  apply Hk.
Qed.

Lemma no_throw_try_catch {A} (m : M A) h :
  (forall e, no_throw (h e)) -> no_throw (try_catch m h).
Proof.
  intros Hh w. unfold try_catch.
  destruct (m w) as [[a|e|c|] w']; simpl; auto.
  apply Hh.
Qed.

Lemma no_throw_map_m {A B} (f : A -> M B) xs :
  (forall x, no_throw (f x)) -> no_throw (map_m f xs).
Proof.
  intros Hf. induction xs as [|x xs IH]; simpl.
  - apply no_throw_ret.
  - apply no_throw_bind; [apply Hf|]. intros y.
    apply no_throw_bind; [apply IH|]. intros ys. apply no_throw_ret.
Qed.

(** A [try] around a computation that does not throw is that
    computation. *)
Lemma try_catch_no_throw {A} (m : M A) h w :
  no_throw m -> try_catch m h w = m w.
Proof.
  intros Hm. unfold try_catch. specialize (Hm w).
  destruct (m w) as [[a|e|c|] w']; simpl in *; tauto.
Qed.

Lemma bind_assoc {A B C} (m : M A) (k : A -> M B) (k' : B -> M C) w :
  bind (bind m k) k' w = bind m (fun a => bind (k a) k') w.
Proof.
  unfold bind. destruct (m w) as [[a|e|c|] w']; reflexivity.
Qed.

Lemma refines_refl {A} (m : M A) : refines m m.
Proof. intros w r w' H _. exact H. Qed.

Lemma refines_bind {A B} (m m' : M A) (k k' : A -> M B) :
  refines m m' -> (forall a, refines (k a) (k' a)) ->
  refines (bind m k) (bind m' k').
Proof.
  intros Hm Hk w r w'. unfold bind.
  destruct (m w) as [[a|e|c|] w1] eqn:E; intros H Hr.
  - rewrite (Hm w _ _ E) by discriminate. now apply Hk.
  - rewrite (Hm w _ _ E) by discriminate. exact H.
  - rewrite (Hm w _ _ E) by discriminate. exact H.
  - congruence.
Qed.

Lemma refines_try_catch {A} (m m' : M A) h :
  refines m m' -> refines (try_catch m h) (try_catch m' h).
Proof.
  intros Hm w r w'. unfold try_catch.
  destruct (m w) as [[a|e|c|] w1] eqn:E; intros H Hr.
  - rewrite (Hm w _ _ E) by discriminate. exact H.
  - rewrite (Hm w _ _ E) by discriminate. exact H.
  - rewrite (Hm w _ _ E) by discriminate. exact H.
  - congruence.
Qed.

Lemma bind_ext {A B} (m : M A) (k k' : A -> M B) w :
  (forall a w', k a w' = k' a w') -> bind m k w = bind m k' w.
Proof.
  intros H. unfold bind. destruct (m w) as [[a|e|c|] w']; auto.
Qed.

Lemma bind_cong {A B} (m m' : M A) (k : A -> M B) w :
  (forall w0, m w0 = m' w0) -> bind m k w = bind m' k w.
Proof. intros H. unfold bind. now rewrite H. Qed.

Lemma bind_ret_l {A B} (a : A) (k : A -> M B) w : bind (ret a) k w = k a w.
Proof. reflexivity. Qed.

Lemma bind_ret_r {A} (m : M A) w : bind m ret w = m w.
Proof. unfold bind, ret. destruct (m w) as [[a|e|c|] w']; reflexivity. Qed.

Lemma map_m_cons {A B} (f : A -> M B) x xs :
  map_m f (x :: xs)
  = bind (f x) (fun y => bind (map_m f xs) (fun ys => ret (y :: ys))).
Proof. reflexivity. Qed.

Lemma map_m_app {A B} (f : A -> M B) xs ys w :
  map_m f (xs ++ ys) w
  = bind (map_m f xs)
      (fun first => bind (map_m f ys)
      (fun second => ret (first ++ second)%list)) w.
Proof.
  revert w. induction xs as [|x xs IH]; intros w; simpl.
  - rewrite bind_ret_l. symmetry. apply bind_ret_r.
  - rewrite bind_assoc. apply bind_ext; intros y w1.
    rewrite bind_assoc.
    transitivity
      (bind (bind (map_m f xs)
               (fun first => bind (map_m f ys)
               (fun second => ret (first ++ second)%list)))
            (fun ys0 => ret (y :: ys0)) w1).
    { unfold bind at 1 3. rewrite IH. reflexivity. }
    rewrite bind_assoc. apply bind_ext; intros first w2.
    rewrite bind_ret_l, bind_assoc. apply bind_ext; intros second w3.
    reflexivity.
Qed.

Lemma for_of_app {A} (body : A -> M unit) xs ys w :
  for_of (xs ++ ys) body w
  = bind (for_of xs body) (fun _ => for_of ys body) w.
Proof.
  revert w. induction xs as [|x xs IH]; intros w; simpl.
  - reflexivity.
  - rewrite bind_assoc. apply bind_ext; intros _ w1. apply IH.
Qed.

End OutcomeFacts.

Create HintDb outcome.
#[local] Hint Resolve no_exit_ret no_exit_throw no_exit_diverge no_exit_lift
  no_exit_modify no_exit_map_m no_throw_ret no_throw_modify no_throw_map_m
  refines_refl : outcome.

(** Goes through a sequence of steps: one [bind] after the other, the
    steps themselves by the hints. *)
Ltac step_through :=
  repeat first
    [ solve [auto with outcome]
    | apply no_exit_bind; [|intros ?]
    | apply no_throw_bind; [|intros ?]
    | apply refines_bind; [|intros ?] ].

(** ** The sitemap resolver *)

Section ResolverFacts.
Import Resolver.
Variable env : environment.

Lemma truthy_not_nullish v : truthy v = true -> nullish v = false.
Proof. destruct v; simpl; congruence. Qed.

Lemma get_prop_defined v k : nullish v = false -> get_prop v k = inr (field v k).
Proof. unfold get_prop. now intros ->. Qed.

Lemma falsy_field v k : truthy v = false -> field v k = JUndefined.
Proof. destruct v; simpl; congruence. Qed.

Lemma no_urlset_shape doc w :
  no_urlset (field doc "urlset") w = (Ret (negb (is_urlset doc)), w).
Proof.
  unfold no_urlset, is_urlset.
  destruct (truthy (field doc "urlset")) eqn:E; simpl.
  - rewrite get_prop_defined by now apply truthy_not_nullish.
    reflexivity.
  - reflexivity.
Qed.

Lemma has_sitemaps_shape doc w :
  has_sitemaps (field doc "sitemapindex") w = (Ret (is_sitemapindex doc), w).
Proof.
  unfold has_sitemaps, is_sitemapindex.
  destruct (truthy (field doc "sitemapindex")) eqn:E; simpl.
  - rewrite get_prop_defined by now apply truthy_not_nullish.
    reflexivity.
  - reflexivity.
Qed.

(** On an entry that is not [null] or [undefined] the two tests compute
    its [location] and touch nothing. *)
Lemma entry_loc_location e w :
  nullish e = false -> entry_loc e w = (Ret (location e), w).
Proof.
  intros H. unfold entry_loc, location, bind.
  rewrite get_prop_defined by assumption. simpl.
  destruct (field e "loc") as [| |b|n|s|items|fields]; simpl; try reflexivity.
  - destruct b; reflexivity.
  - destruct (n =? 0)%Z; reflexivity.
  - destruct s; reflexivity.
Qed.

Lemma location_not_nullish e c : location e = Some c -> nullish e = false.
Proof. destruct e; try reflexivity; discriminate. Qed.

Lemma no_exit_entry_loc e : no_exit (entry_loc e).
Proof.
  unfold entry_loc. step_through.
  destruct (if truthy _ then _ else None); [step_through|].
  destruct (truthy _); step_through.
Qed.

Lemma no_exit_collect resolve sitemaps :
  (forall u, no_exit (resolve u)) ->
  forall urls, no_exit (collect resolve sitemaps urls).
Proof.
  intros Hr. induction sitemaps as [|sm rest IH]; intros urls; simpl.
  - step_through.
  - apply no_exit_bind; [apply no_exit_entry_loc|]. intros [child|].
    + apply no_exit_bind; [apply Hr|]. intros; apply IH.
    + apply IH.
Qed.

Lemma no_exit_no_urlset urlset : no_exit (no_urlset urlset).
Proof. unfold no_urlset. destruct (negb _); step_through. Qed.

Lemma no_exit_has_sitemaps sitemapindex : no_exit (has_sitemaps sitemapindex).
Proof. unfold has_sitemaps. destruct (truthy _); step_through. Qed.

Lemma no_exit_resolve_body resolve url :
  (forall u, no_exit (resolve u)) -> no_exit (resolve_body env resolve url).
Proof.
  intros Hr. unfold resolve_body, js_fetch, say, request.
  apply no_exit_bind; [step_through|]. intros _.
  apply no_exit_bind; [step_through|]. intros [ok statusText xmlString].
  destruct ok; simpl; [|step_through].
  apply no_exit_bind; [step_through|]. intros doc.
  apply no_exit_bind; [step_through|]. intros urlset.
  apply no_exit_bind; [apply no_exit_no_urlset|]. intros [|].
  - apply no_exit_bind; [step_through|]. intros sitemapindex.
    apply no_exit_bind; [apply no_exit_has_sitemaps|]. intros [|]; [|step_through].
    apply no_exit_bind; [step_through|]. intros sitemap.
    now apply no_exit_collect.
  - apply no_exit_bind; [step_through|]. intros url'.
    apply no_exit_bind; [|step_through].
    apply no_exit_map_m, no_exit_entry_loc.
Qed.

Lemma no_exit_handler e : no_exit (resolve_handler e).
Proof. unfold resolve_handler, say. step_through. Qed.

Lemma no_throw_handler e : no_throw (resolve_handler e).
Proof. unfold resolve_handler, say. step_through. Qed.

Lemma fetchSitemapUrls_no_exit fuel :
  forall url, no_exit (fetchSitemapUrls env fuel url).
Proof.
  induction fuel as [|fuel IH]; intros url; simpl.
  - apply no_exit_diverge.
  - apply no_exit_try_catch.
    + now apply no_exit_resolve_body.
    + apply no_exit_handler.
Qed.

Lemma fetchSitemapUrls_no_throw fuel url :
  no_throw (fetchSitemapUrls env fuel url).
Proof.
  destruct fuel; simpl.
  - intros w; exact I.
  - apply no_throw_try_catch, no_throw_handler.
Qed.

(** A failing node prints the error and yields no URL. *)
Lemma failing_node fuel url msg w :
  node_failure env url msg ->
  fetchSitemapUrls env (S fuel) url w
  = (Ret [],
     after w [(Log, "Fetching sitemap: " ++ url);
              (Err, "Error fetching or parsing sitemap: " ++ msg)] [url]).
Proof.
  intros H. simpl.
  unfold try_catch, resolve_body, js_fetch, bind, say, request, modify, after.
  simpl.
  assert (Hcatch : forall e,
             resolve_handler e
               (mkWorld (console w ++ [(Log, "Fetching sitemap: " ++ url)])
                        (network w ++ [url]) (browsers w) (dirs w) (files w))
             = (Ret [],
                mkWorld (console w ++ [(Log, "Fetching sitemap: " ++ url);
                                       (Err, "Error fetching or parsing sitemap: "
                                               ++ message e)])
                        (network w ++ [url]) (browsers w) (dirs w) (files w))).
  { intros e. unfold resolve_handler, bind, say, modify; simpl.
    now rewrite <- app_assoc. }
  destruct H as [e Hf|st body Hf|st body e Hf Hp|st body doc Hf Hp Hn Hu Hi];
    rewrite Hf; simpl.
  - now apply Hcatch.
  - now apply (Hcatch (Error _)).
  - rewrite Hp; simpl. now apply Hcatch.
  - rewrite Hp; simpl.
    rewrite (get_prop_defined doc "urlset") by assumption; simpl.
    rewrite no_urlset_shape, Hu; simpl.
    rewrite (get_prop_defined doc "sitemapindex") by assumption; simpl.
    rewrite has_sitemaps_shape, Hi; simpl.
    now apply (Hcatch (Error _)).
Qed.

Lemma refines_collect resolve resolve' sitemaps :
  (forall u, refines (resolve u) (resolve' u)) ->
  forall urls,
    refines (collect resolve sitemaps urls) (collect resolve' sitemaps urls).
Proof.
  intros Hr. induction sitemaps as [|sm rest IH]; intros urls; simpl.
  - apply refines_refl.
  - apply refines_bind; [apply refines_refl|]. intros [child|].
    + apply refines_bind; [apply Hr|]. intros; apply IH.
    + apply IH.
Qed.

Lemma refines_resolve_body resolve resolve' url :
  (forall u, refines (resolve u) (resolve' u)) ->
  refines (resolve_body env resolve url) (resolve_body env resolve' url).
Proof.
  intros Hr. unfold resolve_body.
  apply refines_bind; [apply refines_refl|]. intros _.
  apply refines_bind; [apply refines_refl|].
  intros [ok statusText xmlString].
  destruct ok; simpl; [|apply refines_refl].
  apply refines_bind; [apply refines_refl|]. intros doc.
  apply refines_bind; [apply refines_refl|]. intros urlset.
  apply refines_bind; [apply refines_refl|]. intros [|]; [|apply refines_refl].
  apply refines_bind; [apply refines_refl|]. intros sitemapindex.
  apply refines_bind; [apply refines_refl|]. intros [|]; [|apply refines_refl].
  apply refines_bind; [apply refines_refl|]. intros sitemap.
  now apply refines_collect.
Qed.

(** More fuel never changes what a resolution that finished returned and
    did. *)
Lemma fetchSitemapUrls_more_fuel fuel :
  forall url,
    refines (fetchSitemapUrls env fuel url) (fetchSitemapUrls env (S fuel) url).
Proof.
  induction fuel as [|fuel IH]; intros url.
  - intros w r w' H Hr. simpl in H. unfold diverge in H. congruence.
  - change (refines
              (try_catch (resolve_body env (fetchSitemapUrls env fuel) url)
                         resolve_handler)
              (try_catch (resolve_body env (fetchSitemapUrls env (S fuel)) url)
                         resolve_handler)).
    apply refines_try_catch. now apply refines_resolve_body.
Qed.

Lemma is_urlset_not_nullish doc : is_urlset doc = true -> nullish doc = false.
Proof. destruct doc; try reflexivity; discriminate. Qed.

Lemma is_sitemapindex_not_nullish doc :
  is_sitemapindex doc = true -> nullish doc = false.
Proof. destruct doc; try reflexivity; discriminate. Qed.

(** The callback of [urls.map] over entries none of which is [null] or
    [undefined]. *)
Lemma map_m_entry_loc entries w :
  Forall (fun e => nullish e = false) entries ->
  map_m entry_loc entries w = (Ret (map location entries), w).
Proof.
  induction 1 as [|e entries He _ IH]; simpl; [reflexivity|].
  unfold bind. rewrite entry_loc_location by assumption.
  rewrite IH. reflexivity.
Qed.

Lemma drop_nulls_map entries :
  drop_nulls (map location entries) = omap location entries.
Proof.
  unfold drop_nulls. induction entries as [|e entries IH]; [reflexivity|].
  simpl. destruct (location e); [f_equal|]; exact IH.
Qed.

Lemma omap_all_located entries urls :
  Forall2 (fun e u => location e = Some u) entries urls ->
  omap location entries = urls.
Proof.
  induction 1 as [|e u entries urls He _ IH]; [reflexivity|].
  simpl. rewrite He. f_equal. exact IH.
Qed.

(** A document of the [UrlSet] shape. *)
Lemma urlset_node fuel url statusText body doc w :
  fetch env url = inr (Response true statusText body) ->
  parseXml env body = inr doc ->
  is_urlset doc = true ->
  Forall (fun e => nullish e = false)
         (to_array (field (field doc "urlset") "url")) ->
  fetchSitemapUrls env (S fuel) url w
  = (Ret (omap location (to_array (field (field doc "urlset") "url"))),
     after w [(Log, "Fetching sitemap: " ++ url)] [url]).
Proof.
  intros Hf Hp Hu He. simpl.
  unfold try_catch, resolve_body, js_fetch, bind, say, request, modify, after.
  simpl. rewrite Hf; simpl. rewrite Hp; simpl.
  rewrite (get_prop_defined doc "urlset") by now apply is_urlset_not_nullish.
  simpl. rewrite no_urlset_shape, Hu; simpl.
  apply andb_prop in Hu as [Hu1 Hu2].
  rewrite get_prop_defined by now apply truthy_not_nullish.
  simpl. rewrite map_m_entry_loc by assumption.
  now rewrite drop_nulls_map.
Qed.

(** The loop over the entries of an index, every entry carrying a
    location: the children are resolved in order and their lists appended
    to the accumulator. *)
Lemma collect_map_m resolve entries locs :
  Forall2 (fun e c => location e = Some c) entries locs ->
  forall urls w,
    collect resolve entries urls w
    = bind (map_m resolve locs) (fun lists => ret (urls ++ concat lists)%list) w.
Proof.
  induction 1 as [|e c entries locs He _ IH]; intros urls w; simpl.
  - unfold bind, ret; simpl. now rewrite app_nil_r.
  - unfold bind at 1.
    rewrite entry_loc_location by now apply (location_not_nullish e c).
    rewrite He. rewrite bind_assoc. apply bind_ext. intros nested w'.
    rewrite IH, bind_assoc. apply bind_ext. intros lists w''.
    unfold bind, ret; simpl. now rewrite app_assoc.
Qed.

(** An entry that is [null] (or [undefined]) makes the callback of
    [urls.map] throw, and the node fails as a whole: the locations of the
    other entries are lost with it. *)
Lemma urlset_null_entry_fails_node fuel url statusText body doc before behind w :
  fetch env url = inr (Response true statusText body) ->
  parseXml env body = inr doc ->
  is_urlset doc = true ->
  to_array (field (field doc "urlset") "url") = (before ++ JNull :: behind)%list ->
  Forall (fun e => nullish e = false) before ->
  fetchSitemapUrls env (S fuel) url w
  = (Ret [],
     after w [(Log, "Fetching sitemap: " ++ url);
              (Err, "Error fetching or parsing sitemap: "
                      ++ "Cannot read properties of null (reading 'loc')")] [url]).
Proof.
  intros Hf Hp Hu He Hb. simpl.
  unfold try_catch, resolve_body, js_fetch, bind, say, request, modify, after.
  simpl. rewrite Hf; simpl. rewrite Hp; simpl.
  rewrite (get_prop_defined doc "urlset") by now apply is_urlset_not_nullish.
  simpl. rewrite no_urlset_shape, Hu; simpl.
  apply andb_prop in Hu as [Hu1 Hu2].
  rewrite get_prop_defined by now apply truthy_not_nullish.
  simpl. rewrite He, map_m_app. unfold bind.
  rewrite map_m_entry_loc by assumption. simpl.
  unfold resolve_handler, bind, say, modify; simpl.
  now rewrite <- app_assoc.
Qed.

(** A document of the [SitemapIndex] shape. *)
Lemma index_node fuel url statusText body doc locs w :
  fetch env url = inr (Response true statusText body) ->
  parseXml env body = inr doc ->
  is_urlset doc = false ->
  is_sitemapindex doc = true ->
  Forall2 (fun e c => location e = Some c)
          (to_array (field (field doc "sitemapindex") "sitemap")) locs ->
  fetchSitemapUrls env (S fuel) url w
  = bind (say Log ("Fetching sitemap: " ++ url))
      (fun _ => bind (request url)
      (fun _ => bind (map_m (fetchSitemapUrls env fuel) locs)
      (fun lists => ret (concat lists)))) w.
Proof.
  intros Hf Hp Hu Hi He. simpl.
  assert (Hbody : forall w0,
    resolve_body env (fetchSitemapUrls env fuel) url w0
    = bind (say Log ("Fetching sitemap: " ++ url))
        (fun _ => bind (request url)
        (fun _ => bind (map_m (fetchSitemapUrls env fuel) locs)
        (fun lists => ret (concat lists)))) w0).
  { intros w0.
    unfold resolve_body, js_fetch.
    unfold bind at 1 2 3 4. unfold say, request, modify. simpl.
    rewrite Hf; simpl.
    unfold bind at 1. rewrite Hp; simpl.
    unfold bind at 1.
    rewrite (get_prop_defined doc "urlset")
      by now apply is_sitemapindex_not_nullish.
    simpl. unfold bind at 1. rewrite no_urlset_shape, Hu; simpl.
    unfold bind at 1.
    rewrite (get_prop_defined doc "sitemapindex")
      by now apply is_sitemapindex_not_nullish.
    simpl. unfold bind at 1. rewrite has_sitemaps_shape, Hi; simpl.
    apply andb_prop in Hi as [Hi1 Hi2].
    unfold bind at 1.
    rewrite get_prop_defined by now apply truthy_not_nullish.
    simpl. rewrite (collect_map_m _ _ locs) by assumption.
    unfold bind at 3. simpl. reflexivity. }
  unfold try_catch. rewrite Hbody.
  assert (Hq : no_throw
    (bind (say Log ("Fetching sitemap: " ++ url))
        (fun _ => bind (request url)
        (fun _ => bind (map_m (fetchSitemapUrls env fuel) locs)
        (fun lists => ret (concat lists)))))).
  { apply no_throw_bind; [apply no_throw_modify|]. intros _.
    apply no_throw_bind; [apply no_throw_modify|]. intros _.
    apply no_throw_bind.
    - apply no_throw_map_m. intros c. apply fetchSitemapUrls_no_throw.
    - intros; apply no_throw_ret. }
  specialize (Hq w).
  destruct (bind _ _ w) as [[a|e|c|] w']; simpl in *; tauto.
Qed.

Lemma truthy_field x k : truthy (field x k) = true -> truthy x = true.
Proof. destruct x; simpl; try discriminate; reflexivity. Qed.

Lemma lists_entries_truthy v entries : lists_entries v entries -> truthy v = true.
Proof. destruct 1; simpl; auto. Qed.

Lemma lists_entries_to_array v entries :
  lists_entries v entries -> to_array v = entries.
Proof. destruct 1; reflexivity. Qed.

Lemma lists_entries_shape doc root name entries :
  lists_entries (field (field doc root) name) entries ->
  truthy (field doc root) && truthy (field (field doc root) name) = true.
Proof.
  intros H. apply lists_entries_truthy in H.
  now rewrite H, (truthy_field _ _ H).
Qed.

End ResolverFacts.

(** C6: the resolver never raises to its caller (nor ends the process),
    whatever the URL, the fuel and the environment; and at a node that fails
    (request rejected, HTTP status not a success, XML that does not parse,
    document of neither shape) it prints the error and returns the empty
    list. *)
Theorem resolver_never_raises (env : environment) :
  (forall fuel url w,
      match fst (Resolver.fetchSitemapUrls env fuel url w) with
      | Throw _ | Exit _ => False
      | Ret _ | Diverge => True
      end)
  /\ (forall fuel url msg w,
         node_failure env url msg ->
         Resolver.fetchSitemapUrls env (S fuel) url w
         = (Ret [],
            after w [(Log, "Fetching sitemap: " ++ url);
                     (Err, "Error fetching or parsing sitemap: " ++ msg)] [url])).
Proof.
  split.
  - intros fuel url w.
    pose proof (fetchSitemapUrls_no_exit env fuel url w) as Hx.
    pose proof (fetchSitemapUrls_no_throw env fuel url w) as Ht.
    destruct (fst _); auto.
  - intros fuel url msg w H. now apply failing_node.
Qed.

Lemma resolver_never_raises_witness :
  Resolver.fetchSitemapUrls Site.env 1 "https://example.com/gone.xml" initial
  = (Ret [],
     after initial
       [(Log, "Fetching sitemap: " ++ "https://example.com/gone.xml");
        (Err, "Error fetching or parsing sitemap: "
                ++ ("Failed to fetch sitemap: " ++ "Not Found"))]
       ["https://example.com/gone.xml"]).
Proof.
  apply (proj2 (resolver_never_raises Site.env) 0 "https://example.com/gone.xml").
  apply (http_failure Site.env _ "Not Found" ""). reflexivity.
Defined.

(** C10: a document whose UrlSet root is present with no url entry takes
    the path of the unrecognised format: the resolver prints the
    'Invalid sitemap format' error and returns the empty list. *)
Theorem empty_urlset_is_invalid
        (env : environment) fuel url statusText body doc w :
  fetch env url = inr (Response true statusText body) ->
  parseXml env body = inr doc ->
  empty_urlset doc ->
  Resolver.fetchSitemapUrls env (S fuel) url w
  = (Ret [],
     after w
       [(Log, "Fetching sitemap: " ++ url);
        (Err, "Error fetching or parsing sitemap: "
                ++ "Invalid sitemap format. No <urlset> or <sitemapindex> found.")]
       [url]).
Proof.
  intros Hf Hp (Hn & _ & Hu & Hi).
  apply failing_node.
  apply (unrecognized env url statusText body doc); try assumption.
  - unfold is_urlset. rewrite Hu. apply andb_false_r.
  - unfold is_sitemapindex. now rewrite Hi.
Qed.

Lemma empty_urlset_is_invalid_witness :
  Resolver.fetchSitemapUrls Site.env 1 "https://example.com/empty.xml" initial
  = (Ret [],
     after initial
       [(Log, "Fetching sitemap: " ++ "https://example.com/empty.xml");
        (Err, "Error fetching or parsing sitemap: "
                ++ "Invalid sitemap format. No <urlset> or <sitemapindex> found.")]
       ["https://example.com/empty.xml"]).
Proof.
  apply (empty_urlset_is_invalid Site.env 0 "https://example.com/empty.xml"
           "OK" "empty" Site.empty_doc initial).
  - reflexivity.
  - reflexivity.
  - repeat split; try reflexivity. discriminate.
Defined.

(** C5, where the code departs from it: an entry with neither form that
    is [null] is not dropped.  With such an entry between two that carry a
    location, reading its [loc] throws inside the [try] and the resolver
    returns the empty list, where dropping the entry leaves the two
    locations. *)
Theorem null_entry_is_not_dropped :
  Resolver.fetchSitemapUrls Cases.holed 1 "https://example.com/pages.xml" initial
  = (Ret [],
     after initial
       [(Log, "Fetching sitemap: https://example.com/pages.xml");
        (Err, "Error fetching or parsing sitemap: Cannot read properties of null (reading 'loc')")]
       ["https://example.com/pages.xml"])
  /\ location JNull = None
  /\ omap location [Site.entry "https://example.com/a"; JNull;
                    Site.entry "https://example.com/b"]
     = ["https://example.com/a"; "https://example.com/b"].
Proof. repeat split; reflexivity. Qed.

(** C4: for a SitemapIndex document whose entries, an array of them or a
    single one, all carry a location, the resolver resolves the children in
    entry order and returns the concatenation of the lists they return; and
    where a child fails, it prints its error and contributes the empty list,
    the result being the concatenation of what the siblings before it and
    after it return. *)
Theorem sitemapindex_concatenates_children
        (env : environment) fuel url statusText body doc entries locs w :
  fetch env url = inr (Response true statusText body) ->
  parseXml env body = inr doc ->
  is_urlset doc = false ->
  lists_entries (field (field doc "sitemapindex") "sitemap") entries ->
  Forall2 (fun e c => location e = Some c) entries locs ->
  Resolver.fetchSitemapUrls env (S (S fuel)) url w
  = (say Log ("Fetching sitemap: " ++ url) ;;
     request url ;;
     lists <- map_m (Resolver.fetchSitemapUrls env (S fuel)) locs ;;
     ret (concat lists))%js w
  /\ (forall lists w',
         map_m (Resolver.fetchSitemapUrls env (S fuel)) locs
               (after w [(Log, "Fetching sitemap: " ++ url)] [url])
         = (Ret lists, w') ->
         Resolver.fetchSitemapUrls env (S (S fuel)) url w
         = (Ret (concat lists), w'))
  /\ (forall before child behind msg,
         locs = (before ++ child :: behind)%list ->
         node_failure env child msg ->
         Resolver.fetchSitemapUrls env (S (S fuel)) url w
         = (say Log ("Fetching sitemap: " ++ url) ;;
            request url ;;
            first <- map_m (Resolver.fetchSitemapUrls env (S fuel)) before ;;
            say Log ("Fetching sitemap: " ++ child) ;;
            request child ;;
            say Err ("Error fetching or parsing sitemap: " ++ msg) ;;
            second <- map_m (Resolver.fetchSitemapUrls env (S fuel)) behind ;;
            ret (concat first ++ concat second)%list)%js w).
Proof.
  intros Hf Hp Hu Hl He.
  pose proof (lists_entries_shape doc "sitemapindex" "sitemap" entries Hl) as Hi.
  rewrite <- (lists_entries_to_array _ _ Hl) in He.
  pose proof (index_node env (S fuel) url statusText body doc locs w
                Hf Hp Hu Hi He) as H.
  split; [exact H|]. split.
  { intros lists w' Hm. rewrite H.
    unfold bind at 1. unfold say at 1, modify; simpl.
    unfold bind at 1. unfold request at 1, modify; simpl.
    unfold bind. unfold after in Hm; simpl in Hm. now rewrite Hm. }
  intros before child behind msg -> Hfail. rewrite H.
  apply bind_ext; intros _ w1. apply bind_ext; intros _ w2.
  rewrite (bind_cong _ _ _ _ (map_m_app _ _ _)).
  rewrite bind_assoc. apply bind_ext; intros first w3.
  transitivity
    (bind (map_m (Resolver.fetchSitemapUrls env (S fuel)) behind)
       (fun second => ret (concat first ++ concat second)%list)
       (after w3 [(Log, "Fetching sitemap: " ++ child);
                  (Err, "Error fetching or parsing sitemap: " ++ msg)] [child])).
  - rewrite map_m_cons, !bind_assoc.
    unfold bind at 1. rewrite (failing_node env fuel child msg w3 Hfail).
    rewrite bind_assoc. apply bind_ext; intros second w4.
    rewrite !bind_ret_l. unfold ret. now rewrite concat_app.
  - symmetry. unfold bind at 1. unfold say at 1, modify; simpl.
    unfold bind at 1. unfold request at 1, modify; simpl.
    unfold bind at 1. unfold say at 1, modify; simpl.
    unfold after; simpl. now rewrite <- app_assoc.
Qed.

Lemma sitemapindex_concatenates_children_witness :
  Resolver.fetchSitemapUrls Cases.mixed 2 "https://example.com/index.xml" initial
  = (Ret ["https://example.com/1"; "https://example.com/2"],
     after initial
       [(Log, "Fetching sitemap: https://example.com/index.xml");
        (Log, "Fetching sitemap: https://example.com/two.xml")]
       ["https://example.com/index.xml"; "https://example.com/two.xml"]).
Proof.
  refine (proj1 (proj2
    (sitemapindex_concatenates_children Cases.mixed 0
       "https://example.com/index.xml" "OK" "https://example.com/index.xml"
       _ _ ["https://example.com/two.xml"] initial
       eq_refl eq_refl eq_refl (single _) _))
    [["https://example.com/1"; "https://example.com/2"]] _ eq_refl).
  repeat constructor.
Defined.

(** The same with several entries, one of them failing. *)
Example sitemapindex_with_failing_sibling :
  Resolver.fetchSitemapUrls Site.env 2 "https://example.com/sitemap.xml" initial
  = (Ret ["https://example.com/a"; "https://example.com/b"; "https://example.com/c"],
     after initial
       [(Log, "Fetching sitemap: https://example.com/sitemap.xml");
        (Log, "Fetching sitemap: https://example.com/pages.xml");
        (Log, "Fetching sitemap: https://example.com/gone.xml");
        (Err, "Error fetching or parsing sitemap: Failed to fetch sitemap: Not Found")]
       ["https://example.com/sitemap.xml"; "https://example.com/pages.xml";
        "https://example.com/gone.xml"]).
Proof. reflexivity. Qed.

(** ** The page pipeline *)

Section PipelineFacts.
Import Pipeline.
Variable env : environment.

Lemma after_nothing w : after w [] [] = w.
Proof. destruct w. unfold after; simpl. now rewrite !app_nil_r. Qed.

Lemma fetchPageHtml_rendered pageUrl html w :
  chromium env pageUrl = Rendered html ->
  fetchPageHtml env pageUrl w = (Ret (Some html), after w [] [pageUrl]).
Proof.
  intros H. unfold fetchPageHtml, launch, newPage, goto, content, close.
  unfold try_finally, try_catch, bind, request, set_browsers, modify, after.
  rewrite H; simpl. now rewrite app_nil_r.
Qed.

Lemma fetchPageHtml_goto_fails pageUrl e w :
  chromium env pageUrl = GotoFails e ->
  fetchPageHtml env pageUrl w
  = (Ret None,
     after w [(Err, "Error fetching page " ++ pageUrl ++ ": " ++ message e)]
           [pageUrl]).
Proof.
  intros H. unfold fetchPageHtml, launch, newPage, goto, content, close.
  unfold try_finally, try_catch, bind, say, request, set_browsers, modify, after.
  rewrite H; simpl. reflexivity.
Qed.

Lemma fetchPageHtml_content_fails pageUrl e w :
  chromium env pageUrl = ContentFails e ->
  fetchPageHtml env pageUrl w
  = (Ret None,
     after w [(Err, "Error fetching page " ++ pageUrl ++ ": " ++ message e)]
           [pageUrl]).
Proof.
  intros H. unfold fetchPageHtml, launch, newPage, goto, content, close.
  unfold try_finally, try_catch, bind, say, request, set_browsers, modify, after.
  rewrite H; simpl. reflexivity.
Qed.

Lemma fetchPageHtml_launch_fails pageUrl e w :
  chromium env pageUrl = LaunchFails e ->
  fetchPageHtml env pageUrl w = (Throw e, w).
Proof.
  intros H. unfold fetchPageHtml, launch, bind. now rewrite H.
Qed.

Lemma fetchPageHtml_newPage_fails pageUrl e w :
  chromium env pageUrl = NewPageFails e ->
  fetchPageHtml env pageUrl w = (Throw e, with_browser w).
Proof.
  intros H. unfold fetchPageHtml, launch, newPage, bind, set_browsers, modify.
  rewrite H; simpl. reflexivity.
Qed.

(** Once the page is open, the browser is closed on every path. *)
Lemma fetchPageHtml_releases pageUrl w :
  (forall e, chromium env pageUrl <> NewPageFails e) ->
  browsers (snd (fetchPageHtml env pageUrl w)) = browsers w.
Proof.
  intros H. destruct (chromium env pageUrl) as [e|e|e|e|html] eqn:E.
  - now rewrite (fetchPageHtml_launch_fails _ _ _ E).
  - now destruct (H e).
  - now rewrite (fetchPageHtml_goto_fails _ _ _ E).
  - now rewrite (fetchPageHtml_content_fails _ _ _ E).
  - now rewrite (fetchPageHtml_rendered _ _ _ E).
Qed.

End PipelineFacts.

(** C8, where the code departs from it: when the browser is launched and
    opening the page fails, [fetchPageHtml] throws with the browser it
    launched still running. *)
Theorem newPage_failure_leaks_browser (env : environment) pageUrl e w :
  chromium env pageUrl = NewPageFails e ->
  Pipeline.fetchPageHtml env pageUrl w = (Throw e, with_browser w)
  /\ browsers (snd (Pipeline.fetchPageHtml env pageUrl w)) = S (browsers w).
Proof.
  intros H. rewrite (fetchPageHtml_newPage_fails env _ _ _ H). now split.
Qed.

Lemma newPage_failure_leaks_browser_witness :
  Pipeline.fetchPageHtml Site.crashing "https://example.com/a" initial
  = (Throw (Error "Protocol error (Target.createTarget): Target closed"),
     with_browser initial)
  /\ browsers (snd (Pipeline.fetchPageHtml Site.crashing "https://example.com/a"
                      initial)) = 1.
Proof.
  apply (newPage_failure_leaks_browser Site.crashing "https://example.com/a").
  reflexivity.
Defined.

(** ** The orchestrator *)

Section OrchestratorFacts.
Import Orchestrator.
Variable env : environment.

Lemma process_skips total entry index pageUrl e w :
  destructure entry = (index, Some pageUrl) ->
  chromium env pageUrl = GotoFails e ->
  process env total entry w = (Ret tt, skipped total index pageUrl e w).
Proof.
  intros Hd Hc. unfold process. rewrite Hd.
  unfold bind at 1. unfold say at 1, modify; simpl.
  unfold bind at 1. rewrite (fetchPageHtml_goto_fails env _ _ _ Hc).
  unfold say, modify, skipped, after; simpl.
  now rewrite <- !app_assoc.
Qed.

Lemma crawl_steps urls w :
  mkdir env "docs" = None ->
  crawl env urls w
  = bind (for_of urls (process env (length urls)))
      (fun _ => say Log (nl ++ "All processing finished."))
      (started w (length urls)).
Proof.
  intros Hm. unfold crawl, deno_mkdir. rewrite Hm.
  reflexivity.
Qed.

End OrchestratorFacts.

(** The pattern binds code points: a pair of surrogates is one element,
    a lone unit another. *)
Example destructure_surrogate_pair :
  Orchestrator.destructure
    (String (ascii_of_nat 216) (String (ascii_of_nat 220) "ab"))
  = (Some (String (ascii_of_nat 216) (String (ascii_of_nat 220) "")), Some "a")
  /\ Orchestrator.destructure
       (String "x" (String (ascii_of_nat 216) (String (ascii_of_nat 220) "b")))
     = (Some "x", Some (String (ascii_of_nat 216) (String (ascii_of_nat 220) "")))
  /\ Orchestrator.destructure "https://example.com/a" = (Some "h", Some "t").
Proof. repeat split; reflexivity. Qed.

(** C9: a page whose render fails (navigation error or timeout) is
    skipped: the pass of the loop returns normally with the files as they
    were, the loop goes on with the URLs after it, and when the passes
    before it and after it return, the run reports completion. *)
Theorem failed_render_is_skipped
        (env : environment) urls before entry behind index pageUrl e w w1 w2 :
  urls = (before ++ entry :: behind)%list ->
  mkdir env "docs" = None ->
  Orchestrator.destructure entry = (index, Some pageUrl) ->
  chromium env pageUrl = GotoFails e ->
  for_of before (Orchestrator.process env (length urls))
         (started w (length urls)) = (Ret tt, w1) ->
  for_of behind (Orchestrator.process env (length urls))
         (skipped (length urls) index pageUrl e w1) = (Ret tt, w2) ->
  Orchestrator.process env (length urls) entry w1
  = (Ret tt, skipped (length urls) index pageUrl e w1)
  /\ files (skipped (length urls) index pageUrl e w1) = files w1
  /\ for_of (entry :: behind) (Orchestrator.process env (length urls)) w1
     = for_of behind (Orchestrator.process env (length urls))
              (skipped (length urls) index pageUrl e w1)
  /\ Orchestrator.crawl env urls w
     = (Ret tt, after w2 [(Log, Orchestrator.nl ++ "All processing finished.")] []).
Proof.
  intros Hu Hm Hd Hc Hb Ha.
  pose proof (process_skips env (length urls) entry index pageUrl e w1 Hd Hc) as Hp.
  assert (Hloop :
    for_of (entry :: behind) (Orchestrator.process env (length urls)) w1
    = for_of behind (Orchestrator.process env (length urls))
             (skipped (length urls) index pageUrl e w1)).
  { simpl. unfold bind. now rewrite Hp. }
  repeat split; try assumption.
  rewrite (crawl_steps env urls w Hm).
  unfold bind at 1. rewrite Hu at 1. rewrite for_of_app.
  unfold bind at 1. rewrite Hb, Hloop, Ha.
  unfold say, modify, after; simpl. now rewrite app_nil_r.
Qed.

Lemma failed_render_is_skipped_witness :
  Orchestrator.crawl Site.env ["https://example.com/a"] initial
  = (Ret tt,
     after (skipped 1 (Some "h") "t"
              (Error ("Cannot navigate to invalid URL " ++ "t"))
              (started initial 1))
           [(Log, Orchestrator.nl ++ "All processing finished.")] []).
Proof.
  refine (proj2 (proj2 (proj2
    (failed_render_is_skipped Site.env ["https://example.com/a"] []
       "https://example.com/a" [] (Some "h") "t"
       (Error ("Cannot navigate to invalid URL " ++ "t"))
       initial (started initial 1) _
       eq_refl eq_refl eq_refl eq_refl eq_refl eq_refl)))).
Defined.

(** C1, where the code departs from it: the loop binds [pageUrl] to the
    second code point of each discovered URL, so for a URL that starts with
    two units that are not surrogates a pass depends on nothing else of the
    URL; on the site whose index yields three page URLs beside a failing
    sibling, the three passes navigate to ["t"] and no file is written, and
    with a browser that renders whatever it is asked for they write the one
    file [docs/t.md]. *)
Theorem loop_passes_second_unit :
  (forall env total a b rest w,
      Js.lead_surrogate a = false ->
      Js.lead_surrogate b = false ->
      Orchestrator.destructure (String a (String b rest))
      = (Some (String a ""), Some (String b ""))
      /\ Orchestrator.process env total (String a (String b rest)) w
         = Orchestrator.process env total (String a (String b "")) w)
  /\ fst (Resolver.fetchSitemapUrls Site.env 3 "https://example.com/sitemap.xml"
            initial)
     = Ret ["https://example.com/a"; "https://example.com/b"; "https://example.com/c"]
  /\ fst (Orchestrator.main Site.env 3 ["https://example.com/sitemap.xml"] initial)
     = Ret tt
  /\ network (snd (Orchestrator.main Site.env 3 ["https://example.com/sitemap.xml"]
                     initial))
     = ["https://example.com/sitemap.xml"; "https://example.com/pages.xml";
        "https://example.com/gone.xml"; "t"; "t"; "t"]
  /\ files (snd (Orchestrator.main Site.env 3 ["https://example.com/sitemap.xml"]
                   initial))
     = ∅
  /\ files (snd (Orchestrator.main Site.lenient 3 ["https://example.com/sitemap.xml"]
                   initial))
     = {[ "docs/t.md" := "<html>t</html>" ]}.
Proof.
  split.
  - intros env total a b rest w Ha Hb.
    assert (Hd : forall r, Orchestrator.destructure (String a (String b r))
                           = (Some (String a ""), Some (String b ""))).
    { intros r. unfold Orchestrator.destructure, Js.next_code_point.
      rewrite Ha. cbn [andb]. destruct r as [|c r]; [reflexivity|].
      rewrite Hb. reflexivity. }
    split; [apply Hd|].
    unfold Orchestrator.process. now rewrite !Hd.
  - repeat split; vm_compute; reflexivity.
Qed.

Lemma loop_passes_second_unit_witness :
  Orchestrator.destructure (String "h" (String "t" "tps://example.com/a"))
  = (Some (String "h" ""), Some (String "t" ""))
  /\ Orchestrator.process Site.env 3 (String "h" (String "t" "tps://example.com/a"))
       initial
     = Orchestrator.process Site.env 3 (String "h" (String "t" "")) initial.
Proof.
  exact (proj1 loop_passes_second_unit Site.env 3 "h"%char "t"%char
           "tps://example.com/a" initial eq_refl eq_refl).
Defined.



(** * Further properties *)

(** ** The filename sanitizer, lines 80-100 *)

Section SanitizerBounds.
Import Js Sanitizer.

Lemma length_app s t : String.length (s ++ t) = String.length s + String.length t.
Proof. induction s as [|c s IH]; simpl; [reflexivity|]. now rewrite IH. Qed.

Lemma length_take n s : String.length (take n s) <= n.
Proof.
  revert s. induction n as [|n IH]; intros [|c r]; simpl; try lia.
  specialize (IH r). lia.
Qed.

Lemma length_truncate s : String.length (truncate s) <= 100.
Proof.
  unfold truncate. destruct (Nat.ltb_spec 100 (String.length s)).
  - apply length_take.
  - assumption.
Qed.

Lemma length_drop_last s : String.length (drop_last s) <= String.length s.
Proof.
  induction s as [|c [|d r] IH]; simpl in *; lia.
Qed.

Lemma length_trim_tail s : String.length (trim_tail s) <= String.length s.
Proof.
  unfold trim_tail. destruct (_ && _); [apply length_drop_last|lia].
Qed.

Lemma all_units_filter p s : all_units p (filter_units p s) = true.
Proof.
  induction s as [|c s IH]; simpl; [reflexivity|].
  destruct (p c) eqn:E; simpl; [now rewrite E|assumption].
Qed.

Lemma all_units_take p n s :
  all_units p s = true -> all_units p (take n s) = true.
Proof.
  revert s. induction n as [|n IH]; intros [|c r]; simpl; try reflexivity.
  intros [Hc Hr]%andb_prop. rewrite Hc. now apply IH.
Qed.

Lemma all_units_drop_last p s :
  all_units p s = true -> all_units p (drop_last s) = true.
Proof.
  induction s as [|c [|d r] IH]; try reflexivity.
  intros [Hc Hr]%andb_prop.
  change (drop_last (String c (String d r)))
    with (String c (drop_last (String d r))).
  simpl all_units at 1. rewrite Hc. now apply IH.
Qed.

Lemma all_units_app p s t :
  all_units p s = true -> all_units p t = true -> all_units p (s ++ t) = true.
Proof.
  induction s as [|c s IH]; simpl; [auto|].
  intros [Hc Hs]%andb_prop Ht. rewrite Hc. now apply IH.
Qed.

Lemma all_units_base url :
  all_units allowed (trim_tail (truncate (clean url))) = true.
Proof.
  assert (H : all_units allowed (truncate (clean url)) = true).
  { unfold truncate, clean. destruct (_ <? _)%nat.
    - apply all_units_take, all_units_filter.
    - apply all_units_filter. }
  unfold trim_tail. destruct (_ && _); [now apply all_units_drop_last|exact H].
Qed.

Lemma substring_whole t : substring 0 (String.length t) t = t.
Proof. induction t as [|d t IH]; simpl; [reflexivity|]. now rewrite IH. Qed.

Lemma substring_suffix s t :
  substring (String.length s) (String.length t) (s ++ t) = t.
Proof.
  induction s as [|c s IH]; simpl; [apply substring_whole|exact IH].
Qed.

Lemma has_suffix_app s t : has_suffix t (s ++ t) = true.
Proof.
  unfold has_suffix. rewrite length_app.
  replace (String.length s + String.length t - String.length t)
    with (String.length s) by lia.
  rewrite substring_suffix, String.eqb_refl.
  apply andb_true_intro; split; [|reflexivity].
  apply Nat.leb_le. lia.
Qed.

Lemma map_slash_idem s :
  map_units slash_to_underscore (map_units slash_to_underscore s)
  = map_units slash_to_underscore s.
Proof.
  induction s as [|c s IH]; simpl; [reflexivity|]. rewrite IH. f_equal.
  unfold slash_to_underscore. destruct (Ascii.eqb c "/") eqn:E; [reflexivity|].
  now rewrite E.
Qed.

(** The name depends on the URL through what follows the scheme, slashes
    turned into underscores. *)
Lemma sanitize_slashes url url' :
  map_units slash_to_underscore (strip_scheme url)
  = map_units slash_to_underscore (strip_scheme url') ->
  sanitizeUrlToFileName url = sanitizeUrlToFileName url'.
Proof.
  intros H. unfold sanitizeUrlToFileName, clean. now rewrite H.
Qed.

End SanitizerBounds.

(** X1: whatever the URL, the name the sanitizer returns is not empty, is
    at most 103 units long (100 of the URL and the extension) and holds only
    units of [[a-zA-Z0-9_.-]]; in particular it holds no path separator. *)
Theorem sanitized_name_is_a_safe_component (url : string) :
  Js.truthy_str (Sanitizer.sanitizeUrlToFileName url) = true
  /\ String.length (Sanitizer.sanitizeUrlToFileName url) <= 103
  /\ all_units Sanitizer.allowed (Sanitizer.sanitizeUrlToFileName url) = true
  /\ all_units (fun c => negb (Ascii.eqb c "/"))
               (Sanitizer.sanitizeUrlToFileName url) = true.
Proof.
  assert (Hall : all_units Sanitizer.allowed (Sanitizer.sanitizeUrlToFileName url)
                 = true).
  { unfold Sanitizer.sanitizeUrlToFileName.
    destruct (negb _); [reflexivity|].
    apply all_units_app; [apply all_units_base|reflexivity]. }
  split; [apply sanitize_nonempty|]. split; [|split; [exact Hall|]].
  - unfold Sanitizer.sanitizeUrlToFileName.
    destruct (negb _); [simpl; lia|].
    rewrite length_app.
    pose proof (length_trim_tail (Sanitizer.truncate (Sanitizer.clean url))).
    pose proof (length_truncate (Sanitizer.clean url)).
    simpl. lia.
  - revert Hall. generalize (Sanitizer.sanitizeUrlToFileName url).
    induction s as [|c s IH]; simpl; [reflexivity|].
    intros [Hc Hs]%andb_prop. rewrite (IH Hs), andb_true_r.
    destruct (Ascii.eqb_spec c "/") as [->|_]; [discriminate|reflexivity].
Qed.

(** X2: when a unit of the URL survives the cleaning, the name ends in
    [.md] and what stands before the extension is not empty; when none
    survives, the name is [default_page_name]. *)
Theorem sanitized_name_extension (url : string) :
  (Js.truthy_str (Sanitizer.clean url) = true ->
   Js.has_suffix ".md" (Sanitizer.sanitizeUrlToFileName url) = true
   /\ exists base, Js.truthy_str base = true
                   /\ String.length base <= 100
                   /\ Sanitizer.sanitizeUrlToFileName url = base ++ ".md")
  /\ (Js.truthy_str (Sanitizer.clean url) = false ->
      Sanitizer.sanitizeUrlToFileName url = "default_page_name").
Proof.
  split; intros H.
  - rewrite (sanitize_extension url H). split; [apply has_suffix_app|].
    exists (Sanitizer.trim_tail (Sanitizer.truncate (Sanitizer.clean url))).
    split; [now rewrite trim_tail_truthy, truncate_truthy|].
    split; [|reflexivity].
    pose proof (length_trim_tail (Sanitizer.truncate (Sanitizer.clean url))).
    pose proof (length_truncate (Sanitizer.clean url)). lia.
  - apply sanitize_default. destruct (Sanitizer.clean url); [reflexivity|discriminate].
Qed.

Lemma sanitized_name_extension_witness :
  Js.has_suffix ".md" (Sanitizer.sanitizeUrlToFileName "https://example.com/") = true
  /\ exists base, Js.truthy_str base = true
                  /\ String.length base <= 100
                  /\ Sanitizer.sanitizeUrlToFileName "https://example.com/"
                     = base ++ ".md".
Proof.
  apply (proj1 (sanitized_name_extension "https://example.com/")). reflexivity.
Defined.

(** X3: a leading [https://] or [http://] is stripped, so the two forms
    of a URL get the same name; and the name does not tell slashes from
    underscores in what follows the scheme, so distinct URLs share a name. *)
Theorem sanitized_names_collide (rest : string) :
  Sanitizer.strip_scheme ("https://" ++ rest) = rest
  /\ Sanitizer.strip_scheme ("http://" ++ rest) = rest
  /\ Sanitizer.sanitizeUrlToFileName ("https://" ++ rest)
     = Sanitizer.sanitizeUrlToFileName ("http://" ++ rest)
  /\ Sanitizer.sanitizeUrlToFileName
       ("https://" ++ Js.map_units Sanitizer.slash_to_underscore rest)
     = Sanitizer.sanitizeUrlToFileName ("https://" ++ rest).
Proof.
  assert (H1 : Sanitizer.strip_scheme ("https://" ++ rest) = rest) by reflexivity.
  assert (H2 : Sanitizer.strip_scheme ("http://" ++ rest) = rest) by reflexivity.
  assert (H3 : Sanitizer.strip_scheme
                 ("https://" ++ Js.map_units Sanitizer.slash_to_underscore rest)
               = Js.map_units Sanitizer.slash_to_underscore rest) by reflexivity.
  split; [exact H1|]. split; [exact H2|]. split.
  - apply sanitize_slashes. now rewrite H1, H2.
  - apply sanitize_slashes. now rewrite H1, H3, map_slash_idem.
Qed.

(** ** The sitemap resolver, lines 6-59 *)

Section ResolverFrame.
Import Resolver.
Variable env : environment.

Lemma after_after w l u l' u' :
  after (after w l u) l' u' = after w (l ++ l') (u ++ u').
Proof. unfold after; simpl. now rewrite <- !app_assoc. Qed.

Lemma appends_pure {A} (o : outcome A) : appends (fun w => (o, w)).
Proof. intros w. exists [], []. simpl. symmetry. apply after_nothing. Qed.

Lemma appends_lift {A} (r : exn + A) : appends (lift r).
Proof. destruct r; apply appends_pure. Qed.

Lemma appends_say s line : appends (say s line).
Proof.
  intros w. exists [(s, line)], []. unfold say, modify, after; simpl.
  now rewrite app_nil_r.
Qed.

Lemma appends_request url : appends (request url).
Proof.
  intros w. exists [], [url]. unfold request, modify, after; simpl.
  now rewrite app_nil_r.
Qed.

Lemma appends_bind {A B} (m : M A) (k : A -> M B) :
  appends m -> (forall a, appends (k a)) -> appends (bind m k).
Proof.
  intros Hm Hk w. unfold bind. destruct (Hm w) as (l & u & H).
  destruct (m w) as [[a|e|c|] w1]; simpl in H; subst w1;
    try (exists l, u; reflexivity).
  destruct (Hk a (after w l u)) as (l' & u' & H').
  exists (l ++ l')%list, (u ++ u')%list. now rewrite H', after_after.
Qed.

Lemma appends_try_catch {A} (m : M A) h :
  appends m -> (forall e, appends (h e)) -> appends (try_catch m h).
Proof.
  intros Hm Hh w. unfold try_catch. destruct (Hm w) as (l & u & H).
  destruct (m w) as [[a|e|c|] w1]; simpl in H; subst w1;
    try (exists l, u; reflexivity).
  destruct (Hh e (after w l u)) as (l' & u' & H').
  exists (l ++ l')%list, (u ++ u')%list. now rewrite H', after_after.
Qed.

Lemma appends_map_m {A B} (f : A -> M B) xs :
  (forall x, appends (f x)) -> appends (map_m f xs).
Proof.
  intros Hf. induction xs as [|x xs IH]; simpl.
  - apply appends_pure.
  - apply appends_bind; [apply Hf|]. intros y.
    apply appends_bind; [apply IH|]. intros ys. apply appends_pure.
Qed.

Lemma appends_entry_loc e : appends (entry_loc e).
Proof.
  unfold entry_loc. apply appends_bind; [apply appends_lift|]. intros loc.
  destruct (if truthy loc then as_string loc else None); [apply appends_pure|].
  destruct (truthy loc); [|apply appends_pure].
  apply appends_bind; [apply appends_lift|]. intros; apply appends_pure.
Qed.

Lemma appends_collect resolve sitemaps :
  (forall u, appends (resolve u)) ->
  forall urls, appends (collect resolve sitemaps urls).
Proof.
  intros Hr. induction sitemaps as [|sm rest IH]; intros urls; simpl.
  - apply appends_pure.
  - apply appends_bind; [apply appends_entry_loc|]. intros [child|].
    + apply appends_bind; [apply Hr|]. intros; apply IH.
    + apply IH.
Qed.

Lemma appends_resolve_body resolve url :
  (forall u, appends (resolve u)) -> appends (resolve_body env resolve url).
Proof.
  intros Hr. unfold resolve_body, js_fetch.
  apply appends_bind; [apply appends_say|]. intros _.
  apply appends_bind.
  { apply appends_bind; [apply appends_request|]. intros; apply appends_lift. }
  intros [ok statusText xmlString].
  destruct ok; simpl; [|apply appends_pure].
  apply appends_bind; [apply appends_lift|]. intros doc.
  apply appends_bind; [apply appends_lift|]. intros urlset.
  apply appends_bind.
  { unfold no_urlset. destruct (negb _); [apply appends_pure|].
    apply appends_bind; [apply appends_lift|]. intros; apply appends_pure. }
  intros [|].
  - apply appends_bind; [apply appends_lift|]. intros sitemapindex.
    apply appends_bind.
    { unfold has_sitemaps. destruct (truthy _); [|apply appends_pure].
      apply appends_bind; [apply appends_lift|]. intros; apply appends_pure. }
    intros [|]; [|apply appends_pure].
    apply appends_bind; [apply appends_lift|]. intros sitemap.
    now apply appends_collect.
  - apply appends_bind; [apply appends_lift|]. intros url'.
    apply appends_bind; [apply appends_map_m, appends_entry_loc|].
    intros; apply appends_pure.
Qed.

Lemma appends_fetchSitemapUrls fuel :
  forall url, appends (fetchSitemapUrls env fuel url).
Proof.
  induction fuel as [|fuel IH]; intros url; simpl.
  - apply appends_pure.
  - apply appends_try_catch.
    + now apply appends_resolve_body.
    + intros e. unfold resolve_handler.
      apply appends_bind; [apply appends_say|]. intros; apply appends_pure.
Qed.

(** The loop over entries none of which is [null] or [undefined]: the
    entries without a location are passed over. *)
Lemma collect_located resolve entries :
  Forall (fun e => nullish e = false) entries ->
  forall urls w,
    collect resolve entries urls w
    = bind (map_m resolve (omap location entries))
        (fun lists => ret (urls ++ concat lists)%list) w.
Proof.
  induction 1 as [|e entries He _ IH]; intros urls w.
  - simpl. unfold bind, ret; simpl. now rewrite app_nil_r.
  - change (collect resolve (e :: entries) urls)
      with (bind (entry_loc e) (fun loc =>
              match loc with
              | Some child =>
                  bind (resolve child)
                    (fun nested => collect resolve entries (urls ++ nested))
              | None => collect resolve entries urls
              end)).
    unfold bind at 1. rewrite entry_loc_location by assumption.
    change (omap location (e :: entries))
      with (match location e with
            | Some c => c :: omap location entries
            | None => omap location entries
            end).
    destruct (location e) as [c|].
    + rewrite map_m_cons, bind_assoc. apply bind_ext. intros nested w'.
      rewrite IH, bind_assoc. apply bind_ext. intros lists w''.
      unfold bind, ret; simpl. now rewrite app_assoc.
    + apply IH.
Qed.

Lemma index_node_located fuel url statusText body doc w :
  fetch env url = inr (Response true statusText body) ->
  parseXml env body = inr doc ->
  is_urlset doc = false ->
  is_sitemapindex doc = true ->
  Forall (fun e => nullish e = false)
         (to_array (field (field doc "sitemapindex") "sitemap")) ->
  fetchSitemapUrls env (S fuel) url w
  = bind (say Log ("Fetching sitemap: " ++ url))
      (fun _ => bind (request url)
      (fun _ => bind (map_m (fetchSitemapUrls env fuel)
                        (omap location
                           (to_array (field (field doc "sitemapindex") "sitemap"))))
      (fun lists => ret (concat lists)))) w.
Proof.
  intros Hf Hp Hu Hi He. simpl.
  set (locs := omap location (to_array (field (field doc "sitemapindex") "sitemap"))).
  assert (Hbody : forall w0,
    resolve_body env (fetchSitemapUrls env fuel) url w0
    = bind (say Log ("Fetching sitemap: " ++ url))
        (fun _ => bind (request url)
        (fun _ => bind (map_m (fetchSitemapUrls env fuel) locs)
        (fun lists => ret (concat lists)))) w0).
  { intros w0.
    unfold resolve_body, js_fetch.
    unfold bind at 1 2 3 4. unfold say, request, modify. simpl.
    rewrite Hf; simpl.
    unfold bind at 1. rewrite Hp; simpl.
    unfold bind at 1.
    rewrite (get_prop_defined doc "urlset")
      by now apply is_sitemapindex_not_nullish.
    simpl. unfold bind at 1. rewrite no_urlset_shape, Hu; simpl.
    unfold bind at 1.
    rewrite (get_prop_defined doc "sitemapindex")
      by now apply is_sitemapindex_not_nullish.
    simpl. unfold bind at 1. rewrite has_sitemaps_shape, Hi; simpl.
    apply andb_prop in Hi as [Hi1 Hi2].
    unfold bind at 1.
    rewrite get_prop_defined by now apply truthy_not_nullish.
    simpl. rewrite collect_located by assumption.
    unfold bind at 3. simpl. reflexivity. }
  unfold try_catch. rewrite Hbody.
  assert (Hq : no_throw
    (bind (say Log ("Fetching sitemap: " ++ url))
        (fun _ => bind (request url)
        (fun _ => bind (map_m (fetchSitemapUrls env fuel) locs)
        (fun lists => ret (concat lists)))))).
  { apply no_throw_bind; [apply no_throw_modify|]. intros _.
    apply no_throw_bind; [apply no_throw_modify|]. intros _.
    apply no_throw_bind.
    - apply no_throw_map_m. intros c. apply fetchSitemapUrls_no_throw.
    - intros; apply no_throw_ret. }
  specialize (Hq w).
  destruct (bind _ _ w) as [[a|e|c|] w']; simpl in *; tauto.
Qed.


End ResolverFrame.

(** X4: the resolver acts on the world only by printing lines and making
    requests: whatever the URL, the fuel and the environment, the browsers,
    the directories and the files are as before, and the console and the
    list of requests are extended, nothing being removed. *)
Theorem resolver_only_prints_and_requests (env : environment) fuel url w :
  exists lines urls,
    snd (Resolver.fetchSitemapUrls env fuel url w) = after w lines urls.
Proof. apply appends_fetchSitemapUrls. Qed.

(** X5: in a sitemap index whose entries, an array of them or a single
    one, are elements, an entry that carries no location is passed over: the
    children resolved are the locations of the entries that have one, in
    entry order, and the result is the concatenation of the lists they
    return. *)
Theorem sitemapindex_skips_unlocated_entries
        (env : environment) fuel url statusText body doc entries w :
  fetch env url = inr (Response true statusText body) ->
  parseXml env body = inr doc ->
  is_urlset doc = false ->
  lists_entries (field (field doc "sitemapindex") "sitemap") entries ->
  Forall (fun e => nullish e = false) entries ->
  Resolver.fetchSitemapUrls env (S fuel) url w
  = (say Log ("Fetching sitemap: " ++ url) ;;
     request url ;;
     lists <- map_m (Resolver.fetchSitemapUrls env fuel) (omap location entries) ;;
     ret (concat lists))%js w
  /\ (forall lists w',
         map_m (Resolver.fetchSitemapUrls env fuel) (omap location entries)
               (after w [(Log, "Fetching sitemap: " ++ url)] [url])
         = (Ret lists, w') ->
         Resolver.fetchSitemapUrls env (S fuel) url w = (Ret (concat lists), w')).
Proof.
  intros Hf Hp Hu Hl He.
  pose proof (lists_entries_shape doc "sitemapindex" "sitemap" entries Hl) as Hi.
  rewrite <- (lists_entries_to_array _ _ Hl) in He.
  pose proof (index_node_located env fuel url statusText body doc w
                Hf Hp Hu Hi He) as H.
  rewrite (lists_entries_to_array _ _ Hl) in H.
  split; [exact H|].
  intros lists w' Hm. rewrite H.
  unfold bind at 1. unfold say at 1, modify; simpl.
  unfold bind at 1. unfold request at 1, modify; simpl.
  unfold bind. unfold after in Hm; simpl in Hm. now rewrite Hm.
Qed.

Lemma sitemapindex_skips_unlocated_entries_witness :
  Resolver.fetchSitemapUrls Cases.gappy 2 "https://example.com/index.xml" initial
  = (Ret ["https://example.com/1"; "https://example.com/2"],
     after initial
       [(Log, "Fetching sitemap: https://example.com/index.xml");
        (Log, "Fetching sitemap: https://example.com/one.xml");
        (Log, "Fetching sitemap: https://example.com/two.xml")]
       ["https://example.com/index.xml"; "https://example.com/one.xml";
        "https://example.com/two.xml"]).
Proof.
  refine (proj2
    (sitemapindex_skips_unlocated_entries Cases.gappy 1
       "https://example.com/index.xml" "OK" "https://example.com/index.xml"
       _ _ initial eq_refl eq_refl eq_refl (repeated _) _)
    [["https://example.com/1"]; ["https://example.com/2"]] _ eq_refl).
  repeat constructor.
Defined.

(** X18: for a UrlSet document whose entries, an array of them or a single
    one, are elements, the resolver returns the locations of the entries
    that carry one, in document order, the other entries being dropped; so
    when each of the N entries carries its location, as a bare string or as
    an object with the text under [#text], exactly these N URLs are returned
    in document order. *)
Theorem urlset_locations_in_order
        (env : environment) fuel url statusText body doc entries w :
  fetch env url = inr (Response true statusText body) ->
  parseXml env body = inr doc ->
  lists_entries (field (field doc "urlset") "url") entries ->
  Forall (fun e => nullish e = false) entries ->
  Resolver.fetchSitemapUrls env (S fuel) url w
  = (Ret (omap location entries),
     after w [(Log, "Fetching sitemap: " ++ url)] [url])
  /\ (forall urls,
         Forall2 (fun e u => location e = Some u) entries urls ->
         length urls = length entries
         /\ Resolver.fetchSitemapUrls env (S fuel) url w
            = (Ret urls, after w [(Log, "Fetching sitemap: " ++ url)] [url])).
Proof.
  intros Hf Hp Hl He.
  pose proof (lists_entries_shape doc "urlset" "url" entries Hl) as Hu.
  rewrite <- (lists_entries_to_array _ _ Hl) in He.
  pose proof (urlset_node env fuel url statusText body doc w Hf Hp Hu He) as H.
  rewrite (lists_entries_to_array _ _ Hl) in H.
  split; [exact H|].
  intros urls Hloc. split.
  - symmetry. now apply (Forall2_length _ _ _ Hloc).
  - rewrite H. now rewrite (omap_all_located _ _ Hloc).
Qed.

Lemma urlset_locations_in_order_witness :
  length ["https://example.com/1"; "https://example.com/2"]
  = length [Site.entry "https://example.com/1";
            JObj [("loc", JObj [("#text", JStr "https://example.com/2")]);
                  ("lastmod", JStr "2024-01-01")]]
  /\ Resolver.fetchSitemapUrls Cases.mixed 1 "https://example.com/two.xml" initial
     = (Ret ["https://example.com/1"; "https://example.com/2"],
        after initial [(Log, "Fetching sitemap: " ++ "https://example.com/two.xml")]
              ["https://example.com/two.xml"]).
Proof.
  refine (proj2
    (urlset_locations_in_order Cases.mixed 0
       "https://example.com/two.xml" "OK" "https://example.com/two.xml"
       _ _ initial eq_refl eq_refl (repeated _) _)
    ["https://example.com/1"; "https://example.com/2"] _).
  - repeat constructor.
  - repeat constructor.
Defined.

(** A urlset with one entry, which the tree holds without an array. *)
Example urlset_with_a_single_entry :
  fst (Resolver.fetchSitemapUrls
         (Cases.serving
            [("https://example.com/one.xml",
              JObj [("urlset", JObj [("url", Site.entry "https://example.com/1")])])]
            Cases.renders inr None None)
         1 "https://example.com/one.xml" initial)
  = Ret ["https://example.com/1"].
Proof. reflexivity. Qed.



(** X7: one entry of a urlset that is [null] makes the callback of [map]
    throw: the error is printed and the node returns the empty list, the
    locations of the other entries lost with it. *)
Theorem urlset_with_null_entry_yields_nothing
        (env : environment) fuel url statusText body doc before behind w :
  fetch env url = inr (Response true statusText body) ->
  parseXml env body = inr doc ->
  is_urlset doc = true ->
  to_array (field (field doc "urlset") "url") = (before ++ JNull :: behind)%list ->
  Forall (fun e => nullish e = false) before ->
  Resolver.fetchSitemapUrls env (S fuel) url w
  = (Ret [],
     after w [(Log, "Fetching sitemap: " ++ url);
              (Err, "Error fetching or parsing sitemap: "
                      ++ "Cannot read properties of null (reading 'loc')")] [url]).
Proof.
  intros Hf Hp Hu He Hb.
  now apply (urlset_null_entry_fails_node env fuel url statusText body doc
               before behind w).
Qed.

Lemma urlset_with_null_entry_yields_nothing_witness :
  Resolver.fetchSitemapUrls Cases.holed 1 "https://example.com/pages.xml" initial
  = (Ret [],
     after initial
       [(Log, "Fetching sitemap: " ++ "https://example.com/pages.xml");
        (Err, "Error fetching or parsing sitemap: "
                ++ "Cannot read properties of null (reading 'loc')")]
       ["https://example.com/pages.xml"]).
Proof.
  refine (urlset_with_null_entry_yields_nothing Cases.holed 0
            "https://example.com/pages.xml" "OK" "https://example.com/pages.xml"
            _ [Site.entry "https://example.com/a"]
            [Site.entry "https://example.com/b"] initial
            eq_refl eq_refl eq_refl eq_refl _).
  repeat constructor.
Defined.

(** ** The page pipeline, lines 61-78 *)

(** X8: whatever the browser does with the page, short of failing to open
    it, the count of running browsers after [fetchPageHtml] is the count
    before: what was launched was closed. *)
Theorem render_releases_the_browser (env : environment) pageUrl w :
  (forall e, chromium env pageUrl <> NewPageFails e) ->
  browsers (snd (Pipeline.fetchPageHtml env pageUrl w)) = browsers w.
Proof. apply fetchPageHtml_releases. Qed.

Lemma render_releases_the_browser_witness :
  browsers (snd (Pipeline.fetchPageHtml Site.env "https://example.com/a" initial))
  = browsers initial.
Proof.
  apply (render_releases_the_browser Site.env "https://example.com/a" initial).
  intros e. discriminate.
Defined.

(** X9: [fetchPageHtml] navigates once, to [pageUrl], and returns the HTML
    when the page renders; when the navigation or the reading of the content
    fails it prints one error line and returns [null]; a browser that cannot
    be launched makes it throw, nothing printed and nothing requested. *)
Theorem render_outcomes (env : environment) pageUrl w :
  match chromium env pageUrl with
  | Rendered html =>
      Pipeline.fetchPageHtml env pageUrl w = (Ret (Some html), after w [] [pageUrl])
  | GotoFails e | ContentFails e =>
      Pipeline.fetchPageHtml env pageUrl w
      = (Ret None,
         after w [(Err, "Error fetching page " ++ pageUrl ++ ": " ++ message e)]
               [pageUrl])
  | LaunchFails e => Pipeline.fetchPageHtml env pageUrl w = (Throw e, w)
  | NewPageFails e =>
      fst (Pipeline.fetchPageHtml env pageUrl w) = Throw e
      /\ network (snd (Pipeline.fetchPageHtml env pageUrl w)) = network w
  end.
Proof.
  destruct (chromium env pageUrl) as [e|e|e|e|html] eqn:E.
  - now apply fetchPageHtml_launch_fails.
  - now rewrite (fetchPageHtml_newPage_fails env _ _ _ E).
  - now apply fetchPageHtml_goto_fails.
  - now apply fetchPageHtml_content_fails.
  - now apply fetchPageHtml_rendered.
Qed.

(** ** The orchestrator, lines 102-144 *)

Section LoopFacts.
Import Orchestrator.
Variable env : environment.

Lemma for_of_throws {A} (body : A -> M unit) x rest e w w' :
  body x w = (Throw e, w') -> for_of (x :: rest) body w = (Throw e, w').
Proof. intros H. simpl. unfold bind. now rewrite H. Qed.

Lemma process_start total entry w :
  process env total entry w
  = (let '(index, pageUrl) := destructure entry in
     bind (ret tt) (fun _ =>
       match pageUrl with
       | None =>
           throw (TypeError "Cannot read properties of undefined (reading 'replace')")
       | Some pageUrl =>
           bind (Pipeline.fetchPageHtml env pageUrl) (fun html =>
             match html with
             | Some (String c r) =>
                 bind (lift (readability env (String c r))) (fun markdown =>
                   let path := join "docs" (Sanitizer.sanitizeUrlToFileName pageUrl) in
                   bind (say Log ("Writing to file: " ++ path))
                        (fun _ => deno_writeTextFile env path markdown))
             | _ => say Warn ("Skipping " ++ pageUrl ++ " due to fetch error.")
             end)
       end))
      (after w [processing total (fst (destructure entry))
                           (snd (destructure entry))] []).
Proof.
  unfold process, processing. destruct (destructure entry) as [index pageUrl].
  unfold bind at 1. unfold say at 1, modify, after; simpl.
  now rewrite app_nil_r.
Qed.

Lemma process_writes total entry index pageUrl html markdown w :
  destructure entry = (index, Some pageUrl) ->
  chromium env pageUrl = Rendered html ->
  Js.truthy_str html = true ->
  readability env html = inr markdown ->
  writeTextFile env (join "docs" (Sanitizer.sanitizeUrlToFileName pageUrl)) markdown
  = None ->
  process env total entry w = (Ret tt, written total index pageUrl markdown w).
Proof.
  intros Hd Hc Hh Hr Hw. rewrite process_start, Hd. simpl fst; simpl snd.
  rewrite bind_ret_l. unfold bind at 1.
  rewrite (fetchPageHtml_rendered env _ _ _ Hc).
  destruct html as [|c r]; [discriminate|].
  unfold bind at 1. rewrite Hr. simpl lift. unfold ret at 1.
  unfold bind, say, modify, deno_writeTextFile. rewrite Hw.
  unfold put_file, modify, written, after; simpl.
  now rewrite !app_nil_r, <- !app_assoc.
Qed.

End LoopFacts.

(** X10: a pass whose page renders to a non-empty document, converts and
    can be written leaves one file behind, [docs/] followed by the sanitized
    name of the page URL, holding the Markdown; every other file and the
    count of browsers are as before. *)
Theorem successful_pass_writes_the_page
        (env : environment) total entry index pageUrl html markdown w :
  Orchestrator.destructure entry = (index, Some pageUrl) ->
  chromium env pageUrl = Rendered html ->
  Js.truthy_str html = true ->
  readability env html = inr markdown ->
  writeTextFile env
    (Orchestrator.join "docs" (Sanitizer.sanitizeUrlToFileName pageUrl)) markdown
  = None ->
  Orchestrator.process env total entry w
  = (Ret tt, written total index pageUrl markdown w)
  /\ files (written total index pageUrl markdown w)
       !! Orchestrator.join "docs" (Sanitizer.sanitizeUrlToFileName pageUrl)
     = Some markdown
  /\ (forall other,
         other <> Orchestrator.join "docs" (Sanitizer.sanitizeUrlToFileName pageUrl) ->
         files (written total index pageUrl markdown w) !! other = files w !! other)
  /\ browsers (written total index pageUrl markdown w) = browsers w.
Proof.
  intros Hd Hc Hh Hr Hw. split; [now apply (process_writes env _ _ _ _ html)|].
  unfold written; simpl. split; [apply lookup_insert_eq|]. split; [|reflexivity].
  intros other Hne. now apply lookup_insert_ne.
Qed.

Lemma successful_pass_writes_the_page_witness :
  Orchestrator.process Cases.rendering 1 "https://example.com/a" initial
  = (Ret tt, written 1 (Some "h") "t" "<html>t</html>" initial)
  /\ files (written 1 (Some "h") "t" "<html>t</html>" initial)
       !! Orchestrator.join "docs" (Sanitizer.sanitizeUrlToFileName "t")
     = Some "<html>t</html>"
  /\ (forall other,
         other <> Orchestrator.join "docs" (Sanitizer.sanitizeUrlToFileName "t") ->
         files (written 1 (Some "h") "t" "<html>t</html>" initial) !! other
         = files initial !! other)
  /\ browsers (written 1 (Some "h") "t" "<html>t</html>" initial) = browsers initial.
Proof.
  exact (successful_pass_writes_the_page Cases.rendering 1 "https://example.com/a"
           (Some "h") "t" "<html>t</html>" "<html>t</html>" initial
           eq_refl eq_refl eq_refl eq_refl eq_refl).
Defined.

(** X11: there is no detection of collisions: when two passes in a row
    write pages whose sanitized names are the same, the file holds the
    Markdown of the second and the first is lost. *)
Theorem later_pass_overwrites_earlier
        (env : environment) total e1 i1 p1 h1 m1 e2 i2 p2 h2 m2 w :
  Orchestrator.destructure e1 = (i1, Some p1) ->
  chromium env p1 = Rendered h1 -> Js.truthy_str h1 = true ->
  readability env h1 = inr m1 ->
  writeTextFile env
    (Orchestrator.join "docs" (Sanitizer.sanitizeUrlToFileName p1)) m1 = None ->
  Orchestrator.destructure e2 = (i2, Some p2) ->
  chromium env p2 = Rendered h2 -> Js.truthy_str h2 = true ->
  readability env h2 = inr m2 ->
  writeTextFile env
    (Orchestrator.join "docs" (Sanitizer.sanitizeUrlToFileName p2)) m2 = None ->
  Sanitizer.sanitizeUrlToFileName p1 = Sanitizer.sanitizeUrlToFileName p2 ->
  fst (for_of [e1; e2] (Orchestrator.process env total) w) = Ret tt
  /\ files (snd (for_of [e1; e2] (Orchestrator.process env total) w))
     = <[ Orchestrator.join "docs" (Sanitizer.sanitizeUrlToFileName p2) := m2 ]>
         (files w).
Proof.
  intros Hd1 Hc1 Hh1 Hr1 Hw1 Hd2 Hc2 Hh2 Hr2 Hw2 Hs.
  assert (H : for_of [e1; e2] (Orchestrator.process env total) w
              = (Ret tt, written total i2 p2 m2 (written total i1 p1 m1 w))).
  { simpl for_of. unfold bind at 1.
    rewrite (process_writes env total e1 i1 p1 h1 m1 w Hd1 Hc1 Hh1 Hr1 Hw1).
    unfold bind at 1.
    now rewrite (process_writes env total e2 i2 p2 h2 m2 _ Hd2 Hc2 Hh2 Hr2 Hw2). }
  rewrite H. split; [reflexivity|].
  unfold written. cbn [snd files]. rewrite Hs. apply insert_insert_eq.
Qed.

Lemma later_pass_overwrites_earlier_witness :
  fst (for_of ["x/"; "x_"] (Orchestrator.process Cases.rendering 2) initial) = Ret tt
  /\ files (snd (for_of ["x/"; "x_"] (Orchestrator.process Cases.rendering 2) initial))
     = <[ Orchestrator.join "docs" (Sanitizer.sanitizeUrlToFileName "_")
          := "<html>_</html>" ]> (files initial).
Proof.
  exact (later_pass_overwrites_earlier Cases.rendering 2
           "x/" (Some "x") "/" "<html>/</html>" "<html>/</html>"
           "x_" (Some "x") "_" "<html>_</html>" "<html>_</html>" initial
           eq_refl eq_refl eq_refl eq_refl eq_refl
           eq_refl eq_refl eq_refl eq_refl eq_refl eq_refl).
Defined.

(** X12: a failure after the render is not caught: when the conversion
    to Markdown throws or the file cannot be written, the pass throws, the
    URLs after it are not processed, no file is written by the pass and the
    browser it used is closed. *)
Theorem failure_after_render_ends_the_loop
        (env : environment) total entry index pageUrl html e rest w :
  Orchestrator.destructure entry = (index, Some pageUrl) ->
  chromium env pageUrl = Rendered html ->
  Js.truthy_str html = true ->
  (readability env html = inl e
   \/ exists markdown,
        readability env html = inr markdown
        /\ writeTextFile env
             (Orchestrator.join "docs" (Sanitizer.sanitizeUrlToFileName pageUrl))
             markdown = Some e) ->
  fst (for_of (entry :: rest) (Orchestrator.process env total) w) = Throw e
  /\ files (snd (for_of (entry :: rest) (Orchestrator.process env total) w)) = files w
  /\ browsers (snd (for_of (entry :: rest) (Orchestrator.process env total) w))
     = browsers w
  /\ network (snd (for_of (entry :: rest) (Orchestrator.process env total) w))
     = (network w ++ [pageUrl])%list.
Proof.
  intros Hd Hc Hh Hfail.
  assert (H : exists lines,
             Orchestrator.process env total entry w
             = (Throw e, after w lines [pageUrl])).
  { rewrite process_start, Hd. simpl fst; simpl snd.
    rewrite bind_ret_l. unfold bind at 1.
    rewrite (fetchPageHtml_rendered env _ _ _ Hc).
    destruct html as [|c r]; [discriminate|].
    unfold bind at 1. destruct Hfail as [Hr|(markdown & Hr & Hw)]; rewrite Hr.
    - eexists. simpl. unfold throw. now rewrite !after_after.
    - simpl lift. unfold ret at 1.
      unfold bind, say, modify, Orchestrator.deno_writeTextFile. rewrite Hw.
      unfold throw.
      exists [processing total index (Some pageUrl);
              (Log, "Writing to file: "
                      ++ Orchestrator.join "docs"
                           (Sanitizer.sanitizeUrlToFileName pageUrl))].
      unfold after; simpl. now rewrite !app_nil_r, <- !app_assoc. }
  destruct H as (lines & H).
  rewrite (for_of_throws _ entry rest e w _ H). now repeat split.
Qed.

Lemma failure_after_render_ends_the_loop_witness :
  fst (for_of ["https://example.com/a"; "https://example.com/b"]
         (Orchestrator.process Cases.full_disk 2) initial)
  = Throw (Error "No space left on device (os error 28)")
  /\ files (snd (for_of ["https://example.com/a"; "https://example.com/b"]
                   (Orchestrator.process Cases.full_disk 2) initial))
     = files initial
  /\ browsers (snd (for_of ["https://example.com/a"; "https://example.com/b"]
                      (Orchestrator.process Cases.full_disk 2) initial))
     = browsers initial
  /\ network (snd (for_of ["https://example.com/a"; "https://example.com/b"]
                     (Orchestrator.process Cases.full_disk 2) initial))
     = (network initial ++ ["t"])%list.
Proof.
  refine (failure_after_render_ends_the_loop Cases.full_disk 2
            "https://example.com/a" (Some "h") "t" "<html>t</html>"
            (Error "No space left on device (os error 28)")
            ["https://example.com/b"] initial eq_refl eq_refl eq_refl _).
  right. exists "<html>t</html>". split; reflexivity.
Defined.

(** X13: a browser that cannot be launched is not a skipped page: the
    exception leaves [fetchPageHtml] and the loop, the URLs after it are not
    processed, and nothing was requested. *)
Theorem launch_failure_ends_the_loop
        (env : environment) total entry index pageUrl e rest w :
  Orchestrator.destructure entry = (index, Some pageUrl) ->
  chromium env pageUrl = LaunchFails e ->
  for_of (entry :: rest) (Orchestrator.process env total) w
  = (Throw e, after w [processing total index (Some pageUrl)] []).
Proof.
  intros Hd Hc. apply for_of_throws.
  rewrite process_start, Hd. simpl fst; simpl snd.
  rewrite bind_ret_l. unfold bind.
  now rewrite (fetchPageHtml_launch_fails env _ _ _ Hc).
Qed.

Lemma launch_failure_ends_the_loop_witness :
  for_of ["https://example.com/a"; "https://example.com/b"]
         (Orchestrator.process Cases.no_browser 2) initial
  = (Throw (Error "Could not find Chrome"),
     after initial [processing 2 (Some "h") (Some "t")] []).
Proof.
  exact (launch_failure_ends_the_loop Cases.no_browser 2 "https://example.com/a"
           (Some "h") "t" (Error "Could not find Chrome")
           ["https://example.com/b"] initial eq_refl eq_refl).
Defined.

(** X14: a discovered URL of fewer than two units leaves [pageUrl]
    undefined: the pass prints its line and throws a [TypeError] in the
    sanitizer, before any navigation, and the URLs after it are not
    processed. *)
Theorem short_url_ends_the_loop (env : environment) total entry rest w :
  String.length entry < 2 ->
  for_of (entry :: rest) (Orchestrator.process env total) w
  = (Throw (TypeError "Cannot read properties of undefined (reading 'replace')"),
     after w [processing total (fst (Orchestrator.destructure entry)) None] []).
Proof.
  intros H. apply for_of_throws. rewrite process_start.
  destruct entry as [|a [|b r]]; simpl in H; try lia; reflexivity.
Qed.

Lemma short_url_ends_the_loop_witness :
  for_of ["/"; "https://example.com/b"] (Orchestrator.process Site.env 2) initial
  = (Throw (TypeError "Cannot read properties of undefined (reading 'replace')"),
     after initial [processing 2 (fst (Orchestrator.destructure "/")) None] []).
Proof.
  apply (short_url_ends_the_loop Site.env 2 "/" ["https://example.com/b"] initial).
  simpl. lia.
Defined.

(** X15: a page that renders to the empty string is skipped like a page
    that failed: the warning is printed, no error line, and no file is
    written. *)
Theorem empty_html_is_skipped (env : environment) total entry index pageUrl w :
  Orchestrator.destructure entry = (index, Some pageUrl) ->
  chromium env pageUrl = Rendered "" ->
  Orchestrator.process env total entry w
  = (Ret tt,
     after w [processing total index (Some pageUrl);
              (Warn, "Skipping " ++ pageUrl ++ " due to fetch error.")]
           [pageUrl]).
Proof.
  intros Hd Hc. rewrite process_start, Hd. simpl fst; simpl snd.
  rewrite bind_ret_l. unfold bind.
  rewrite (fetchPageHtml_rendered env _ _ _ Hc).
  unfold say, modify, after; simpl.
  now rewrite !app_nil_r, <- !app_assoc.
Qed.

Lemma empty_html_is_skipped_witness :
  Orchestrator.process Cases.blank 1 "https://example.com/a" initial
  = (Ret tt,
     after initial [processing 1 (Some "h") (Some "t");
                    (Warn, "Skipping " ++ "t" ++ " due to fetch error.")]
           ["t"]).
Proof.
  exact (empty_html_is_skipped Cases.blank 1 "https://example.com/a"
           (Some "h") "t" initial eq_refl eq_refl).
Defined.

(** X16: when the resolver returns no URL, [main] prints that none was
    found and returns: status 0, no directory made, no browser launched, no
    file written. *)
Theorem no_urls_ends_the_run
        (env : environment) fuel sitemapUrl others w w' :
  Resolver.fetchSitemapUrls env fuel sitemapUrl
    (after w [(Log, "Sitemap URL: " ++ sitemapUrl)] [])
  = (Ret [], w') ->
  Orchestrator.main env fuel (sitemapUrl :: others) w
  = (Ret tt,
     after w' [(Log, "No URLs found in the sitemap or failed to fetch/parse sitemap.")]
           [])
  /\ Orchestrator.exit_status (fst (Orchestrator.main env fuel (sitemapUrl :: others) w))
     = Some 0
  /\ dirs (snd (Orchestrator.main env fuel (sitemapUrl :: others) w)) = dirs w
  /\ files (snd (Orchestrator.main env fuel (sitemapUrl :: others) w)) = files w
  /\ browsers (snd (Orchestrator.main env fuel (sitemapUrl :: others) w)) = browsers w.
Proof.
  intros H.
  assert (Hm : Orchestrator.main env fuel (sitemapUrl :: others) w
               = (Ret tt,
                  after w' [(Log, "No URLs found in the sitemap or failed to fetch/parse sitemap.")]
                        [])).
  { unfold Orchestrator.main. simpl.
    rewrite bind_ret_l. unfold bind at 1. unfold say at 1, modify.
    unfold after in H; simpl in H. rewrite app_nil_r in H.
    unfold bind. rewrite H. simpl.
    unfold say, modify, after; simpl. now rewrite app_nil_r. }
  rewrite Hm. split; [reflexivity|]. split; [reflexivity|].
  destruct (appends_fetchSitemapUrls env fuel sitemapUrl
              (after w [(Log, "Sitemap URL: " ++ sitemapUrl)] []))
    as (lines & urls & Hframe).
  rewrite H in Hframe; simpl in Hframe. subst w'. now repeat split.
Qed.

Lemma no_urls_ends_the_run_witness :
  Orchestrator.main Site.env 1 ["https://example.com/gone.xml"] initial
  = (Ret tt,
     after (after (after initial
                     [(Log, "Sitemap URL: " ++ "https://example.com/gone.xml")] [])
              [(Log, "Fetching sitemap: " ++ "https://example.com/gone.xml");
               (Err, "Error fetching or parsing sitemap: "
                       ++ ("Failed to fetch sitemap: " ++ "Not Found"))]
              ["https://example.com/gone.xml"])
       [(Log, "No URLs found in the sitemap or failed to fetch/parse sitemap.")]
       []).
Proof.
  refine (proj1 (no_urls_ends_the_run Site.env 1 "https://example.com/gone.xml"
                   [] initial _ _)).
  apply failing_node.
  apply (http_failure Site.env _ "Not Found" ""). reflexivity.
Defined.

(** X17: when [docs] cannot be made, the run ends there: the count of
    URLs was printed, the exception leaves [main] (status 1), no page is
    requested and no completion is reported. *)
Theorem mkdir_failure_ends_the_run (env : environment) urls e w :
  mkdir env "docs" = Some e ->
  Orchestrator.crawl env urls w
  = (Throw e,
     after w [(Log, "Found " ++ Js.show_nat (length urls) ++ " URLs in sitemap.")] [])
  /\ Orchestrator.exit_status (fst (Orchestrator.crawl env urls w)) = Some 1.
Proof.
  intros H.
  assert (Hc : Orchestrator.crawl env urls w
               = (Throw e,
                  after w [(Log, "Found " ++ Js.show_nat (length urls)
                                   ++ " URLs in sitemap.")] [])).
  { unfold Orchestrator.crawl, Orchestrator.deno_mkdir. rewrite H.
    unfold bind, say, modify, throw, after; simpl. now rewrite app_nil_r. }
  rewrite Hc. now split.
Qed.

Lemma mkdir_failure_ends_the_run_witness :
  Orchestrator.crawl Cases.readonly ["https://example.com/a"] initial
  = (Throw (Error "Permission denied (os error 13)"),
     after initial
       [(Log, "Found " ++ Js.show_nat (length ["https://example.com/a"])
                ++ " URLs in sitemap.")] [])
  /\ Orchestrator.exit_status
       (fst (Orchestrator.crawl Cases.readonly ["https://example.com/a"] initial))
     = Some 1.
Proof.
  exact (mkdir_failure_ends_the_run Cases.readonly ["https://example.com/a"]
           (Error "Permission denied (os error 13)") initial eq_refl).
Defined.
